(** * Metrics screen of the node (src/metrics.cpp)

  A shallow embedding of the telemetry engine of [metrics.cpp]: the
  reference-counted interval timer [AtomicTimer], the bounded message box,
  the network height estimator [EstimateNetHeightInner], the mined-block
  ledger ([TrackMinedBlock]) and the orphan/subsidy reconciliation loop of
  [printMetrics].

  Conventions.
  - A C++ integer is a [Z]; every arithmetic result is normalised to the
    width of its C++ type ([to_int], [to_int64], [to_uint64]), so that
    wrap-around is explicit.
  - A C++ [double] is a primitive binary64 [float].
  - [GetTime()] is an explicit argument [now] of every function that reads
    the clock.
  - A function that runs under a lock is one atomic state transformer. *)

From stdpp Require Import base numbers list strings gmap.
From Stdlib Require Import PrimFloat SpecFloat FloatOps Ascii.
From Equations Require Import Equations.
From Equations.Prop Require Import Logic.

Local Open Scope Z_scope.

(* ===================================================================== *)
(** * Part I: the model                                                    *)
(* ===================================================================== *)

(** ** Machine integers *)

Module CInt.

(** Two's complement value of [z] in a signed type of [w] bits. *)
Definition signed (w : Z) (z : Z) : Z :=
  (z + 2 ^ (w - 1)) mod 2 ^ w - 2 ^ (w - 1).

(** Value of [z] in an unsigned type of [w] bits. *)
Definition unsigned (w : Z) (z : Z) : Z := z mod 2 ^ w.

Definition to_int (z : Z) : Z := signed 32 z.
Definition to_int64 (z : Z) : Z := signed 64 z.
Definition to_uint64 (z : Z) : Z := unsigned 64 z.

Definition INT_MIN : Z := - 2 ^ 31.
Definition INT_MAX : Z := 2 ^ 31 - 1.

Definition is_int (z : Z) : Prop := - 2 ^ 31 <= z < 2 ^ 31.
Definition is_int64 (z : Z) : Prop := - 2 ^ 63 <= z < 2 ^ 63.
Definition is_uint64 (z : Z) : Prop := 0 <= z < 2 ^ 64.

End CInt.
Export CInt.

(** ** Doubles *)

Module CDouble.

(** Conversion of an integer to [double]: round to nearest, ties to even. *)
Definition of_Z (z : Z) : float :=
  SF2Prim (binary_normalize prec emax z 0 false).

(** Integer part of a finite double (rounding toward zero); [None] for
    infinities and NaN. *)
Definition trunc (x : float) : option Z :=
  match Prim2SF x with
  | S754_zero _ => Some 0
  | S754_finite s m e =>
      let a := if 0 <=? e then Z.pos m * 2 ^ e else Z.pos m / 2 ^ (- e) in
      Some (if s then - a else a)
  | S754_infinity _ | S754_nan => None
  end.

(** Conversion of a [double] to [int]: the fractional part is discarded.
    When the integer part does not fit an [int] (or the double is not
    finite) C++ leaves the result undefined; the model returns what the
    x86-64 conversion instruction [cvttsd2si] returns, [INT_MIN]. *)
Definition to_int (x : float) : Z :=
  match trunc x with
  | Some z => if (INT_MIN <=? z) && (z <=? INT_MAX) then z else INT_MIN
  | None => INT_MIN
  end.

End CDouble.

(** ** AtomicCounter *)

Module AtomicCounter.

(** Modelled from the spec: the class [AtomicCounter] is declared in
    metrics.h, which is not part of the sources; section 4.1 describes it as
    an unsigned integer value that [increment()] raises by exactly one
    (no increment is lost) and [get()] returns. *)
Definition t : Type := N.

(** Modelled from the spec: a counter is created once, at zero. *)
Definition init : t := 0%N.

(** Modelled from the spec: [increment()] adds 1 and cannot fail. *)
Definition increment (c : t) : t := N.succ c.

(** Modelled from the spec: [get()] returns the current value. *)
Definition get (c : t) : Z := Z.of_N c.

End AtomicCounter.

(** ** AtomicTimer *)

Module AtomicTimer.

(** The fields read and written by the member functions: [threads] is the
    [uint64_t] returned by [threadCount()], [start_time] and [total_time] are
    the [int64_t] values of [GetTime()] arithmetic. *)
Record t : Type := mk {
  threads : Z;
  start_time : Z;
  total_time : Z
}.

(** Modelled from the spec: the constructor lives in metrics.h; a timer
    starts with no active thread and no accumulated duration. *)
Definition init : t := mk 0 0 0.

Definition start (now : Z) (tm : t) : t :=
  let start_time' := if threads tm <? 1 then now else start_time tm in
  mk (to_uint64 (threads tm + 1)) start_time' (total_time tm).

Definition stop (now : Z) (tm : t) : t :=
  (* Ignore excess calls to stop() *)
  if 0 <? threads tm then
    let threads' := to_uint64 (threads tm - 1) in
    if threads' <? 1 then
      let time_span := to_int64 (now - start_time tm) in
      mk threads' (start_time tm) (to_int64 (total_time tm + time_span))
    else mk threads' (start_time tm) (total_time tm)
  else tm.

Definition running (tm : t) : bool := 0 <? threads tm.

Definition threadCount (tm : t) : Z := threads tm.

(** [duration] of [rate]: the accumulated time plus the open interval. *)
Definition rate_duration (now : Z) (tm : t) : Z :=
  let duration := total_time tm in
  if 0 <? threads tm then
    (* Timer is running, so get the latest count *)
    to_int64 (duration + to_int64 (now - start_time tm))
  else duration.

Definition rate (now : Z) (count : AtomicCounter.t) (tm : t) : float :=
  let duration := rate_duration now tm in
  if 0 <? duration then
    (CDouble.of_Z (AtomicCounter.get count) / CDouble.of_Z duration)%float
  else CDouble.of_Z 0.

(** The duration of [rate] as section 4.2 words it:
    [accumulatedDuration + (now - currentIntervalStart if running else 0)]. *)
Definition spec_duration (now : Z) (tm : t) : Z :=
  total_time tm + (if running tm then now - start_time tm else 0).

(** A call made on the timer, with the clock value it observes. *)
Inductive call : Type := Start | Stop.

#[global] Instance call_eq_dec : EqDecision call.
Proof. solve_decision. Defined.

Definition step (tm : t) (ev : call * Z) : t :=
  match ev with
  | (Start, now) => start now tm
  | (Stop, now) => stop now tm
  end.

Definition run (tm : t) (trace : list (call * Z)) : t :=
  fold_left step trace tm.

(** The clock readings of a trace never go backwards, start at or after
    [last] and stay representable in an [int64_t]. *)
Fixpoint clock_ok (last : Z) (trace : list (call * Z)) : bool :=
  match trace with
  | [] => true
  | (_, now) :: rest =>
      (last <=? now) && (now <? 2 ^ 63) && clock_ok now rest
  end.

Definition starts (calls : list call) : nat :=
  length (filter (fun c => c = Start) calls).

Definition stops (calls : list call) : nat :=
  length (filter (fun c => c = Stop) calls).

(** At least one start has not been matched by a stop: from some point of
    the history on, the starts outnumber the stops. *)
Definition unmatched_start (calls : list call) : Prop :=
  exists pre post, calls = pre ++ post /\ (stops post < starts post)%nat.

(** The number of starts that still wait for their stop; a stop that finds
    none matches nothing. *)
Definition pending_step (n : nat) (c : call) : nat :=
  match c with
  | Start => S n
  | Stop => pred n
  end.

Definition pending (calls : list call) : nat :=
  fold_left pending_step calls 0%nat.

(** What holds of a timer after [n] calls, the last of them at time [last]. *)
Definition invariant (last : Z) (n : nat) (tm : t) : Prop :=
  0 <= last < 2 ^ 63 /\
  0 <= threads tm <= Z.of_nat n /\
  0 <= total_time tm <= last /\
  (0 < threads tm -> 0 <= start_time tm <= last /\ total_time tm <= start_time tm).

(** Section 3 gives the timer a [currentIntervalStart] that is either set or
    not. The class has the [int64_t] field [start_time] only, so "set" is read
    through a predicate [is_set] on that field: [start()] sets it on the
    transition 0 to 1, [stop()] clears it on the transition 1 to 0. *)
Definition start_sets (is_set : Z -> bool) : Prop :=
  forall now tm, 0 <= now -> threads tm = 0 ->
    is_set (start_time (start now tm)) = true.

Definition stop_clears (is_set : Z -> bool) : Prop :=
  forall now tm, 0 <= now -> threads tm = 1 ->
    is_set (start_time (stop now tm)) = false.

End AtomicTimer.

(** ** The message box and the refresh deadline *)

Module Screen.

(** The constants of [CClientUIInterface] (ui_interface.h) that
    [metrics_ThreadSafeMessageBox] reads, and the three predefined captions,
    each the translation [_()] of a coloured literal (ansicolor.h). Neither
    header is part of the sources, so they are taken as given. *)
Record ui : Type := mk_ui {
  SECURE : Z;
  MSG_ERROR : Z;
  MSG_WARNING : Z;
  MSG_INFORMATION : Z;
  caption_error : string;
  caption_warning : string;
  caption_information : string
}.

(** [nNextRefresh] and [messageBox], the two synchronized values a posted
    message touches. *)
Record t : Type := mk {
  nNextRefresh : Z;
  messageBox : list string
}.

Definition init : t := mk 0 [].

(** [*nNextRefresh = GetTime(); MilliSleep(200);] the sleep changes no
    field. *)
Definition TriggerRefresh (now : Z) (s : t) : t :=
  mk now (messageBox s).

(** Lines 178 to 182: [push_back], then [pop_back] when more than five
    entries are held. *)
Definition messageBox_push (line : string) (u : list string) : list string :=
  let u' := u ++ [line] in
  if (5 <? length u')%nat then removelast u' else u'.

Definition strCaption_of (i : ui) (caption : string) (style : Z) : string :=
  (* The SECURE flag has no effect in the metrics UI. *)
  let style := Z.land style (CInt.unsigned 32 (Z.lnot (SECURE i))) in
  (* Check for usage of predefined caption *)
  if style =? MSG_ERROR i then caption_error i
  else if style =? MSG_WARNING i then caption_warning i
  else if style =? MSG_INFORMATION i then caption_information i
  else caption (* Use supplied caption (can be empty) *).

Definition metrics_ThreadSafeMessageBox
    (i : ui) (now : Z) (message caption : string) (style : Z) (s : t)
    : t * bool :=
  let strCaption := strCaption_of i caption style in
  let u := messageBox_push (strCaption +:+ ": " +:+ message) (messageBox s) in
  (TriggerRefresh now (mk (nNextRefresh s) u), false).

(** The message box after a sequence of pushed lines. *)
Definition push_all (u : list string) (lines : list string) : list string :=
  fold_left (fun u line => messageBox_push line u) lines u.

(** The guard of the scheduler's wait loop,
    [while (GetTime() < *nNextRefresh)]. *)
Definition refresh_pending (now : Z) (s : t) : bool :=
  now <? nNextRefresh s.

End Screen.

(** ** The network height estimator *)

Module NetHeight.

(** Every division the function performs is recorded with the divisor as the
    source writes it: an integer operand, or a [double] operand. *)
Inductive divisor : Type :=
| DivInt (d : Z)
| DivDouble (d : float).

Definition divisor_nonzero (d : divisor) : bool :=
  match d with
  | DivInt z => negb (z =? 0)
  | DivDouble f => negb (is_zero f)
  end.

(** A computation that returns a value and the divisors it divided by. *)
Definition Div (A : Type) : Type := A * list divisor.

Definition ret {A : Type} (a : A) : Div A := (a, []).

Definition bind {A B : Type} (m : Div A) (k : A -> Div B) : Div B :=
  let r := k (fst m) in (fst r, snd m ++ snd r).

Notation "x <- m ;; k" := (bind m (fun x => k))
  (at level 100, m at next level, right associativity).

(** [a / b] on two [int]s. *)
Definition int_div (a b : Z) : Div Z := (to_int (Z.quot a b), [DivInt b]).

(** [a / b] with a [double] dividend and an integer divisor, which is
    converted to [double]. *)
Definition double_div_int (a : float) (b : Z) : Div float :=
  ((a / CDouble.of_Z b)%float, [DivInt b]).

(** [a / b] on two [double]s. *)
Definition double_div (a b : float) : Div float :=
  ((a / b)%float, [DivDouble b]).

Section Inner.

(** [CBlockIndex::nMedianTimeSpan], a constant of chain.h. *)
Variable nMedianTimeSpan : Z.

Definition medianHeight_of (height : Z) : Div Z :=
  if nMedianTimeSpan <? height then
    half <- int_div (to_int (nMedianTimeSpan - 1)) 2 ;;
    ret (to_int (height - to_int (1 + half)))
  else int_div height 2.

Definition checkpointSpacing_of
    (medianHeight tipmediantime heightLastCheckpoint timeLastCheckpoint
     genesisTime : Z) : Div float :=
  if heightLastCheckpoint <? medianHeight then
    double_div_int (CDouble.of_Z (to_int64 (tipmediantime - timeLastCheckpoint)))
                   (to_int (medianHeight - heightLastCheckpoint))
  else
    double_div_int (CDouble.of_Z (to_int64 (timeLastCheckpoint - genesisTime)))
                   heightLastCheckpoint.

Definition averageSpacing_of (targetSpacing : Z) (checkpointSpacing : float)
    : Div float :=
  double_div_int (CDouble.of_Z targetSpacing + checkpointSpacing)%float 2.

(** The value of [averageSpacing] on given arguments. *)
Definition averageSpacing
    (height tipmediantime heightLastCheckpoint timeLastCheckpoint
     genesisTime targetSpacing : Z) : float :=
  fst (medianHeight <- medianHeight_of height ;;
       checkpointSpacing <-
         checkpointSpacing_of medianHeight tipmediantime heightLastCheckpoint
                              timeLastCheckpoint genesisTime ;;
       averageSpacing_of targetSpacing checkpointSpacing).

Definition EstimateNetHeightInner_div
    (now height tipmediantime heightLastCheckpoint timeLastCheckpoint
     genesisTime targetSpacing : Z) : Div Z :=
  (* We average the target spacing with the observed spacing to the last
     checkpoint (either from below or above depending on the current height),
     and use that to estimate the current network height. *)
  medianHeight <- medianHeight_of height ;;
  checkpointSpacing <-
    checkpointSpacing_of medianHeight tipmediantime heightLastCheckpoint
                         timeLastCheckpoint genesisTime ;;
  averageSpacing <- averageSpacing_of targetSpacing checkpointSpacing ;;
  elapsed <- double_div (CDouble.of_Z (to_int64 (now - tipmediantime)))
                        averageSpacing ;;
  let netheight := CDouble.to_int (CDouble.of_Z medianHeight + elapsed)%float in
  (* Round to nearest ten to reduce noise *)
  tens <- int_div (to_int (netheight + 5)) 10 ;;
  ret (to_int (tens * 10)).

Definition EstimateNetHeightInner
    (now height tipmediantime heightLastCheckpoint timeLastCheckpoint
     genesisTime targetSpacing : Z) : Z :=
  fst (EstimateNetHeightInner_div now height tipmediantime
         heightLastCheckpoint timeLastCheckpoint genesisTime targetSpacing).

(** The divisors of one call, in the order the divisions are made. *)
Definition divisors
    (now height tipmediantime heightLastCheckpoint timeLastCheckpoint
     genesisTime targetSpacing : Z) : list divisor :=
  snd (EstimateNetHeightInner_div now height tipmediantime
         heightLastCheckpoint timeLastCheckpoint genesisTime targetSpacing).

(** *** The estimator as section 4.3 words it

    Steps 1 to 5 over unbounded integers, with the same [double]
    operations. *)

Definition spec_medianHeight (localHeight : Z) : Z :=
  if nMedianTimeSpan <? localHeight
  then localHeight - (1 + Z.quot (nMedianTimeSpan - 1) 2)
  else Z.quot localHeight 2.

Definition spec_checkpointSpacing
    (medianHeight localTipMedianTime checkpointHeight checkpointTime
     genesisTime : Z) : float :=
  if checkpointHeight <? medianHeight then
    (CDouble.of_Z (localTipMedianTime - checkpointTime)
     / CDouble.of_Z (medianHeight - checkpointHeight))%float
  else
    (CDouble.of_Z (checkpointTime - genesisTime)
     / CDouble.of_Z checkpointHeight)%float.

Definition spec_averageSpacing (targetBlockSpacing : Z)
    (checkpointSpacing : float) : float :=
  ((CDouble.of_Z targetBlockSpacing + checkpointSpacing) / CDouble.of_Z 2)%float.

Definition spec_estimatedHeight (medianHeight now localTipMedianTime : Z)
    (averageSpacing : float) : float :=
  (CDouble.of_Z medianHeight
   + CDouble.of_Z (now - localTipMedianTime) / averageSpacing)%float.

Definition round_to_ten (h : Z) : Z := Z.quot (h + 5) 10 * 10.

Definition spec_estimateNetworkHeight
    (now localHeight localTipMedianTime checkpointHeight checkpointTime
     genesisTime targetBlockSpacing : Z) : Z :=
  let medianHeight := spec_medianHeight localHeight in
  let checkpointSpacing :=
    spec_checkpointSpacing medianHeight localTipMedianTime checkpointHeight
                           checkpointTime genesisTime in
  let averageSpacing := spec_averageSpacing targetBlockSpacing checkpointSpacing in
  let estimatedHeight :=
    spec_estimatedHeight medianHeight now localTipMedianTime averageSpacing in
  round_to_ten (CDouble.to_int estimatedHeight).

End Inner.

End NetHeight.

(** ** Mined blocks: the ledger and its reconciliation *)

Module Ledger.

(** A block hash ([uint256]). *)
Abbreviation uint256 := Z (only parsing).

(** The fields of [CBlockIndex] (chain.h) the loop reads; the hash stands for
    the identity of the entry that [mapBlockIndex] points to. *)
Record CBlockIndex : Type := mk_index {
  phashBlock : uint256;
  nHeight : Z
}.

(** What [printMetrics] reads of the chain state while it holds [cs_main]:
    [mapBlockIndex], [chainActive.Contains] and [chainActive.Height()]
    (main.h, chain.h), [COINBASE_MATURITY] (consensus.h) and
    [GetBlockSubsidy] under the consensus parameters. None of these is part of
    the sources, so they are taken as given. *)
Record chain : Type := mk_chain {
  mapBlockIndex : gmap Z CBlockIndex;
  chainActive_Contains : CBlockIndex -> bool;
  chainActive_Height : Z;
  COINBASE_MATURITY : Z;
  GetBlockSubsidy : Z -> Z
}.

(** [minedBlocks] and [trackedBlocks], both guarded by [cs_metrics]. *)
Record t : Type := mk {
  minedBlocks : AtomicCounter.t;
  trackedBlocks : list uint256
}.

Definition init : t := mk AtomicCounter.init [].

Definition TrackMinedBlock (hash : uint256) (s : t) : t :=
  mk (AtomicCounter.increment (minedBlocks s)) (trackedBlocks s ++ [hash]).

(** The two [CAmount] accumulators of the loop. *)
Record amounts : Type := mk_amounts {
  immature : Z;
  mature : Z
}.

(** Lines 341 to 357, "Update orphans and calculate subsidies": the iterator
    walks the list from [begin()]; an entry is kept ([it++]) or erased. *)
Fixpoint update_orphans (c : chain) (u : list uint256) (acc : amounts)
    : list uint256 * amounts :=
  match u with
  | [] => ([], acc)
  | hash :: rest =>
      match mapBlockIndex c !! hash with
      | Some pindex =>
          if chainActive_Contains c pindex then
            let height := nHeight pindex in
            let subsidy := GetBlockSubsidy c height in
            let tipHeight := chainActive_Height c in
            let acc' :=
              if 0 <? Z.max 0 (to_int (COINBASE_MATURITY c
                                       - to_int (tipHeight - height)))
              then mk_amounts (to_int64 (immature acc + subsidy)) (mature acc)
              else mk_amounts (immature acc) (to_int64 (mature acc + subsidy)) in
            let r := update_orphans c rest acc' in
            (hash :: fst r, snd r)
          else update_orphans c rest acc
      | None => update_orphans c rest acc
      end
  end.

(** The figures of the "You have mined" report. *)
Record summary : Type := mk_summary {
  mined : Z;
  orphaned : Z;
  immature_total : Z;
  mature_total : Z
}.

(** [mined - u->size()]: the [int] is converted to [size_t], the difference
    is taken there and converted back to [int]. *)
Definition orphaned_of (mined : Z) (size : nat) : Z :=
  to_int (to_uint64 (to_uint64 mined - Z.of_nat size)).

(** Lines 330 to 361 of [printMetrics], the block run when
    [mining && loaded]. *)
Definition reconcile (c : chain) (s : t) : t * summary :=
  let r := update_orphans c (trackedBlocks s) (mk_amounts 0 0) in
  let u := fst r in
  let mined := to_int (AtomicCounter.get (minedBlocks s)) in
  let orphaned := orphaned_of mined (length u) in
  (mk (minedBlocks s) u,
   mk_summary mined orphaned (immature (snd r)) (mature (snd r))).

(** What one call of [printMetrics] does to the ledger. *)
Definition printMetrics (mining loaded : bool) (c : chain) (s : t) : t :=
  if mining && loaded then fst (reconcile c s) else s.

(** The calls that touch the ledger. *)
Inductive event : Type :=
| Track (hash : uint256)
| Render (mining loaded : bool) (c : chain).

Definition step (s : t) (ev : event) : t :=
  match ev with
  | Track hash => TrackMinedBlock hash s
  | Render mining loaded c => printMetrics mining loaded c s
  end.

Definition run (s : t) (trace : list event) : t := fold_left step trace s.

(** The number of blocks ever recorded in a history. *)
Definition added (trace : list event) : nat :=
  length (List.filter (fun ev => match ev with Track _ => true | Render _ _ _ => false end)
            trace).

(** *** Vocabulary of the claims *)

(** The entry is known to the index and on the active chain. *)
Definition on_best_chain (c : chain) (hash : uint256) : bool :=
  match mapBlockIndex c !! hash with
  | Some pindex => chainActive_Contains c pindex
  | None => false
  end.

Definition height_of (c : chain) (hash : uint256) : Z :=
  match mapBlockIndex c !! hash with
  | Some pindex => nHeight pindex
  | None => 0
  end.

Definition subsidy_of (c : chain) (hash : uint256) : Z :=
  GetBlockSubsidy c (height_of c hash).

(** Depth below the tip is under the maturity threshold. *)
Definition below_maturity (c : chain) (hash : uint256) : bool :=
  chainActive_Height c - height_of c hash <? COINBASE_MATURITY c.

Definition sum_subsidies (c : chain) (l : list uint256) : Z :=
  foldr (fun hash acc => subsidy_of c hash + acc) 0 l.

(** A chain view whose integers have the ranges of their C++ types, and in
    which a block of the active chain is at a height from 0 to the tip. *)
Definition well_formed (c : chain) : Prop :=
  0 <= COINBASE_MATURITY c < 2 ^ 31 /\
  -1 <= chainActive_Height c < 2 ^ 31 /\
  (forall hash pindex,
      mapBlockIndex c !! hash = Some pindex ->
      chainActive_Contains c pindex = true ->
      0 <= nHeight pindex <= chainActive_Height c) /\
  (forall height, is_int64 (GetBlockSubsidy c height)).

(** The lifetime counter is at least the size of the tracked list. *)
Definition counter_covers_list (s : t) : Prop :=
  Z.of_nat (length (trackedBlocks s)) <= AtomicCounter.get (minedBlocks s).

(** A chain view for examples: the tip is at height 500 and the maturity
    threshold is 100; block 1 sits at height 10 and block 2 at height 450,
    both on the active chain; every block pays the same subsidy. *)
Definition example_chain : chain :=
  mk_chain (<[ 1 := mk_index 1 10 ]> (<[ 2 := mk_index 2 450 ]> ∅))
           (fun _ => true) 500 100 (fun _ => 1250000000).

End Ledger.

(** ** Uptime and the line count of [printMetrics] *)

Module Uptime.

(** [*nNodeStartTime = GetTime();] the value stored. *)
Definition MarkStartTime (now : Z) : Z := now.

(** [GetTime() - *nNodeStartTime]. *)
Definition GetUptime (now nNodeStartTime : Z) : Z :=
  to_int64 (now - nNodeStartTime).

(** The four [int]s computed at lines 297 to 300. *)
Record fields : Type := mk {
  days : Z;
  hours : Z;
  minutes : Z;
  seconds : Z
}.

Definition fields_of (uptime : Z) : fields :=
  let days := to_int (Z.quot uptime (24 * 60 * 60)) in
  let hours :=
    to_int (Z.quot (to_int64 (uptime - to_int (days * 24 * 60 * 60)))
                   (60 * 60)) in
  let minutes :=
    to_int (Z.quot (to_int64 (uptime
                              - to_int ((((days * 24) + hours) * 60 * 60))))
                   60) in
  let seconds :=
    to_int (to_int64 (uptime
                      - to_int (((((days * 24) + hours) * 60) + minutes) * 60))) in
  mk days hours minutes seconds.

(** Which of the four formats of lines 304 to 312 is used, with the numbers
    it is given. *)
Inductive duration : Type :=
| DaysHoursMinutesSeconds (d h m s : Z)
| HoursMinutesSeconds (h m s : Z)
| MinutesSeconds (m s : Z)
| Seconds (s : Z).

Definition duration_of (f : fields) : duration :=
  if 0 <? days f then
    DaysHoursMinutesSeconds (days f) (hours f) (minutes f) (seconds f)
  else if 0 <? hours f then
    HoursMinutesSeconds (hours f) (minutes f) (seconds f)
  else if 0 <? minutes f then MinutesSeconds (minutes f) (seconds f)
  else Seconds (seconds f).

(** The number of seconds a displayed duration stands for. *)
Definition shown_seconds (d : duration) : Z :=
  match d with
  | DaysHoursMinutesSeconds d h m s => ((d * 24 + h) * 60 + m) * 60 + s
  | HoursMinutesSeconds h m s => (h * 60 + m) * 60 + s
  | MinutesSeconds m s => m * 60 + s
  | Seconds s => s
  end.

(** The terminal width used by [ThreadShowMetricsScreen] (lines 468 to 481,
    the branch without WIN32): 80 columns, unless standard output is a
    terminal and [ioctl(TIOCGWINSZ)] succeeds with a non-zero [ws_col]. *)
Definition window_cols (isTTY : bool) (ioctl_result ws_col : Z) : Z :=
  let cols := 80 in
  if isTTY then
    if negb (ioctl_result =? -1) && negb (ws_col =? 0) then ws_col else cols
  else cols.

(** The [lines] returned by [printMetrics]: [strDuration_size] is
    [strDuration.size()] (the text comes from [strprintf] and the
    translations, which are not part of the sources), [mined] is the figure
    of the reconciliation. The division [strDuration.size() / cols] is made
    on [size_t]. *)
Definition printMetrics_lines
    (cols strDuration_size : Z) (mining loaded : bool) (c : Ledger.chain)
    (s : Ledger.t) : NetHeight.Div Z :=
  (* Number of lines that are always displayed *)
  let lines := 3 in
  let wrapped := to_uint64 (Z.quot strDuration_size cols) in
  let lines := to_int (to_uint64 (to_uint64 lines + wrapped)) in
  let lines :=
    if mining && loaded then
      let lines := to_int (lines + 1) in
      let mined := Ledger.mined (snd (Ledger.reconcile c s)) in
      if 0 <? mined then to_int (lines + 2) else lines
    else lines in
  (lines, [NetHeight.DivInt cols]).

End Uptime.

(** ** The download percentage of [printStats] *)

Module Stats.

(** What [EstimateNetHeight] reads of the chain parameters (chainparams.h,
    checkpoints.h, not part of the sources):
    [Checkpoints::GetTotalBlocksEstimate(checkpointData)],
    [checkpointData.nTimeLastCheckpoint], [GenesisBlock().nTime] and
    [GetConsensus().nPowTargetSpacing]. *)
Record CChainParams : Type := mk_params {
  TotalBlocksEstimate : Z;
  nTimeLastCheckpoint : Z;
  GenesisTime : Z;
  nPowTargetSpacing : Z
}.

Definition EstimateNetHeight_div
    (nMedianTimeSpan now height tipmediantime : Z) (chainParams : CChainParams)
    : NetHeight.Div Z :=
  NetHeight.EstimateNetHeightInner_div nMedianTimeSpan now height tipmediantime
    (TotalBlocksEstimate chainParams) (nTimeLastCheckpoint chainParams)
    (GenesisTime chainParams) (nPowTargetSpacing chainParams).

Definition EstimateNetHeight
    (nMedianTimeSpan now height tipmediantime : Z) (chainParams : CChainParams)
    : Z :=
  fst (EstimateNetHeight_div nMedianTimeSpan now height tipmediantime
         chainParams).

(** Lines 227 and 228, run during the initial block download:
    [int downloadPercent = height * 100 / netheight]. *)
Definition downloadPercent_div
    (nMedianTimeSpan now height tipmediantime : Z) (chainParams : CChainParams)
    : NetHeight.Div Z :=
  NetHeight.bind
    (EstimateNetHeight_div nMedianTimeSpan now height tipmediantime chainParams)
    (fun netheight => NetHeight.int_div (to_int (height * 100)) netheight).

(** The local [netheight] of [EstimateNetHeightInner], before it is
    rounded. *)
Definition netheight
    (nMedianTimeSpan now height tipmediantime heightLastCheckpoint
     timeLastCheckpoint genesisTime targetSpacing : Z) : Z :=
  CDouble.to_int
    (CDouble.of_Z (fst (NetHeight.medianHeight_of nMedianTimeSpan height))
     + CDouble.of_Z (to_int64 (now - tipmediantime))
       / NetHeight.averageSpacing nMedianTimeSpan height tipmediantime
           heightLastCheckpoint timeLastCheckpoint genesisTime targetSpacing)%float.

(** The [lines] returned by [printStats]. *)
Definition printStats_lines (mining : bool) (miningTimer : AtomicTimer.t) : Z :=
  (* Number of lines that are always displayed *)
  let lines := 4 in
  if mining && AtomicTimer.running miningTimer then to_int (lines + 1)
  else lines.

(** [GetLocalSolPS]: the rate of [solutionTargetChecks] over
    [miningTimer]. *)
Definition GetLocalSolPS (now : Z) (solutionTargetChecks : AtomicCounter.t)
    (miningTimer : AtomicTimer.t) : float :=
  AtomicTimer.rate now solutionTargetChecks miningTimer.

End Stats.

(** ** The message box on screen *)

Module MessageLines.

(** [std::string::find(c, pos)]: the first index at or after [pos] that
    holds [c]; [None] stands for [npos]. *)
Fixpoint first_index (c : Ascii.ascii) (s : string) : option nat :=
  match s with
  | EmptyString => None
  | String a s' =>
      if Ascii.eqb a c then Some 0%nat else option_map S (first_index c s')
  end.

Fixpoint find (c : Ascii.ascii) (s : string) (pos : nat) : option nat :=
  match pos, s with
  | O, _ => first_index c s
  | S pos', EmptyString => None
  | S pos', String _ s' => option_map S (find c s' pos')
  end.

(** The loop of lines 394 to 405, "Handle newlines and wrapped lines", on
    the indices [j] and the counter [lines]. *)
Equations? newline_loop (msg : string) (j : nat) (lines : Z) : Z
  by wf (String.length msg - j)%nat lt :=
  newline_loop msg j lines with inspect (j <? String.length msg)%nat => {
    | exist _ false _ := lines
    | exist _ true Hj with inspect (find "010"%char msg j) => {
        | exist _ None _ :=
            newline_loop msg (String.length msg + 1) lines
        | exist _ (Some i) Hi :=
            (* Newline *)
            newline_loop msg (i + 1) (to_int (lines + 1)) } }.
Proof.
  - assert (B : forall s pos k,
               find "010"%char s pos = Some k ->
               (pos <= k < String.length s)%nat).
    { clear. induction s as [| a s IH]; intros pos k H.
      - destruct pos; discriminate.
      - destruct pos as [| pos]; simpl in H.
        + destruct (Ascii.eqb a "010"%char); [injection H as <-; simpl; lia |].
          destruct (first_index "010"%char s) as [n |] eqn:E; [| discriminate].
          injection H as <-. specialize (IH 0%nat n).
          destruct s; simpl in *; [discriminate |]. specialize (IH E). lia.
        + destruct (find "010"%char s pos) as [n |] eqn:E; [| discriminate].
          injection H as <-. specialize (IH pos n E). simpl. lia. }
    apply B in Hi. lia.
  - apply Nat.ltb_lt in Hj. lia.
Qed.

(** [printMessageBox]: [FormatParagraph] (utilstrencodings.h) is not part of
    the sources and is taken as given. *)
Definition printMessageBox
    (FormatParagraph : string -> Z -> Z -> string) (cols : Z)
    (u : list string) : Z :=
  if (length u =? 0)%nat then 0
  else
    fold_left
      (fun lines it =>
         let msg := FormatParagraph it cols 2 in
         (* Handle newlines and wrapped lines *)
         newline_loop msg 0 lines)
      u (to_int (to_uint64 (2 + Z.of_nat (length u)))).

(** The number of newline characters of a string. *)
Fixpoint newlines (s : string) : nat :=
  match s with
  | EmptyString => 0
  | String a s' => ((if Ascii.eqb a "010"%char then 1 else 0) + newlines s')%nat
  end.

(** The string without its first [j] characters. *)
Fixpoint drop_chars (j : nat) (s : string) : string :=
  match j, s with
  | O, _ => s
  | S j', EmptyString => EmptyString
  | S j', String _ s' => drop_chars j' s'
  end.

(** The newline characters of all formatted messages of the box. *)
Definition newlines_shown
    (FormatParagraph : string -> Z -> Z -> string) (cols : Z)
    (u : list string) : nat :=
  foldr (fun it n => (newlines (FormatParagraph it cols 2%Z) + n)%nat) 0%nat u.

End MessageLines.

(** ** The init message *)

Module InitPhase.

(** [initMessage] and [loaded]. *)
Record t : Type := mk {
  initMessage : string;
  loaded : bool
}.

Definition init : t := mk EmptyString false.

Definition metrics_InitMessage (message : string) (s : t) : t :=
  mk message (loaded s).

Inductive colour : Type := LGREEN | LYELLOW.

(** [printInitMessage]: the new state, the message written with its colour,
    and the number of lines. [done_loading] is the translation
    [_("Done loading")]. *)
Definition printInitMessage (done_loading : string) (s : t)
    : t * list (colour * string) * Z :=
  if loaded s then (s, [], 0)
  else
    let msg := initMessage s in
    if bool_decide (msg = done_loading)
    then (mk (initMessage s) true, [(LGREEN, msg)], 2)
    else (s, [(LYELLOW, msg)], 2).

(** The calls that touch the init phase: a subsystem reports a phase, or the
    screen thread renders. *)
Inductive event : Type :=
| Report (message : string)
| Print.

(** The state and everything written so far. *)
Definition step (done_loading : string) (st : t * list (colour * string))
    (ev : event) : t * list (colour * string) :=
  match ev with
  | Report message => (metrics_InitMessage message (fst st), snd st)
  | Print =>
      let r := printInitMessage done_loading (fst st) in
      (fst (fst r), snd st ++ snd (fst r))
  end.

Definition run (done_loading : string) (trace : list event)
    : t * list (colour * string) :=
  fold_left (step done_loading) trace (init, []).


End InitPhase.

(** ** The refresh loop *)

Module Refresh.

(** Where the screen thread is: inside a pass of the [while (true)] body, in
    the wait loop of lines 512 to 515, or stopped by an interruption. *)
Inductive phase : Type := Rendering | Waiting | Cancelled.

Record t : Type := mk {
  position : phase;
  screen : Screen.t;
  interruption_requested : bool
}.

(** What happens, in the order in which the threads take their turns:
    the screen thread ends a pass ([*nNextRefresh = GetTime() + nRefresh]),
    the screen thread evaluates the guard of the wait loop once (and, when it
    holds, passes [interruption_point()] and sleeps), some thread calls
    [TriggerRefresh], or the interruption of the screen thread is
    requested. *)
Inductive event : Type :=
| EndPass (now : Z)
| Check (now : Z)
| Trigger (now : Z)
| Interrupt.

Definition step (nRefresh : Z) (s : t) (ev : event) : t :=
  match ev with
  | EndPass now =>
      match position s with
      | Rendering =>
          mk Waiting
             (Screen.mk (to_int64 (now + nRefresh)) (Screen.messageBox (screen s)))
             (interruption_requested s)
      | _ => s
      end
  | Check now =>
      match position s with
      | Waiting =>
          if Screen.refresh_pending now (screen s) then
            if interruption_requested s
            then mk Cancelled (screen s) (interruption_requested s)
            else s
          else mk Rendering (screen s) (interruption_requested s)
      | _ => s
      end
  | Trigger now =>
      mk (position s) (Screen.TriggerRefresh now (screen s))
         (interruption_requested s)
  | Interrupt => mk (position s) (screen s) true
  end.

Definition run (nRefresh : Z) (s : t) (trace : list event) : t :=
  fold_left (step nRefresh) trace s.

(** The thread starts in its first pass, with no interruption requested. *)
Definition init : t := mk Rendering Screen.init false.

(** A [TriggerRefresh] made at a time not after [now]. *)
Definition trigger_until (now : Z) (ev : event) : bool :=
  match ev with
  | Trigger t => t <=? now
  | Interrupt | EndPass _ | Check _ => false
  end.

Definition is_interrupt (ev : event) : bool :=
  match ev with
  | Interrupt => true
  | _ => false
  end.

End Refresh.

(** ** Questions *)

Module Question.

(** [metrics_ThreadSafeQuestion]: the interactive message is ignored. *)
Definition metrics_ThreadSafeQuestion
    (i : Screen.ui) (now : Z) (ignored message caption : string) (style : Z)
    (s : Screen.t) : Screen.t * bool :=
  Screen.metrics_ThreadSafeMessageBox i now message caption style s.

End Question.

(** ** The mining status *)

Module MiningStatus.

(** The text [printMiningStatus] writes. *)
Inductive status : Type :=
| MiningWithThreads (nThreads : Z)
| PausedWaitingForConnections
| PausedDownloadingBlocks
| PausedJoinSplit
| NotMining.

(** [printMiningStatus]: [enable_mining] says whether ENABLE_MINING is
    defined, [fvNodesEmpty] is [vNodes.empty()] and
    [isInitialBlockDownload] the result of [IsInitialBlockDownload()]. The
    result is the text written, if any, and the number of lines. *)
Definition printMiningStatus
    (enable_mining mining : bool) (miningTimer : AtomicTimer.t)
    (fvNodesEmpty isInitialBlockDownload : bool) : option status * Z :=
  if enable_mining then
    (* Number of lines that are always displayed *)
    let lines := 1 in
    if mining then
      let nThreads := AtomicTimer.threadCount miningTimer in
      let shown :=
        if 0 <? nThreads then MiningWithThreads nThreads
        else if fvNodesEmpty then PausedWaitingForConnections
        else if isInitialBlockDownload then PausedDownloadingBlocks
        else PausedJoinSplit in
      (Some shown, to_int (lines + 1))
    else (Some NotMining, to_int (lines + 2))
  else (None, 0).

End MiningStatus.

(* ===================================================================== *)
(** * Part II: properties                                                  *)
(* ===================================================================== *)

(** ** Machine integers *)

(** Closes a goal that says a value lies in the range of its C++ type. *)
Ltac in_range :=
  unfold is_int, is_int64, is_uint64, INT_MIN, INT_MAX in *; simpl; lia.

Lemma signed_in_range (w z : Z) :
  0 < w -> - 2 ^ (w - 1) <= z < 2 ^ (w - 1) -> CInt.signed w z = z.
Proof.
  intros Hw Hz. unfold CInt.signed.
  assert (E : 2 ^ w = 2 * 2 ^ (w - 1)).
  { rewrite <- Z.pow_succ_r by lia. f_equal. lia. }
  rewrite Z.mod_small; lia.
Qed.

Lemma signed_bounds (w z : Z) :
  0 < w -> - 2 ^ (w - 1) <= CInt.signed w z < 2 ^ (w - 1).
Proof.
  intros Hw. unfold CInt.signed.
  assert (E : 2 ^ w = 2 * 2 ^ (w - 1)).
  { rewrite <- Z.pow_succ_r by lia. f_equal. lia. }
  assert (0 < 2 ^ (w - 1)) by (apply Z.pow_pos_nonneg; lia).
  pose proof (Z.mod_pos_bound (z + 2 ^ (w - 1)) (2 ^ w)). lia.
Qed.

Lemma signed_congr (w a b : Z) :
  0 < w -> a mod 2 ^ w = b mod 2 ^ w -> CInt.signed w a = CInt.signed w b.
Proof.
  intros Hw E. unfold CInt.signed. f_equal.
  rewrite <- (Z.add_mod_idemp_l a), <- (Z.add_mod_idemp_l b), E; trivial;
    apply Z.pow_nonzero; lia.
Qed.

Lemma signed_mod (w z : Z) : 0 < w -> CInt.signed w z mod 2 ^ w = z mod 2 ^ w.
Proof.
  intros Hw. unfold CInt.signed.
  assert (E : 2 ^ w = 2 * 2 ^ (w - 1)).
  { rewrite <- Z.pow_succ_r by lia. f_equal. lia. }
  assert (N : 2 ^ w <> 0) by (apply Z.pow_nonzero; lia).
  rewrite <- Zminus_mod_idemp_l, Z.mod_mod by exact N.
  rewrite Zminus_mod_idemp_l. f_equal. lia.
Qed.

Lemma to_int_id (z : Z) : is_int z -> to_int z = z.
Proof. intros H. apply signed_in_range; [lia | exact H]. Qed.

Lemma to_int64_id (z : Z) : is_int64 z -> to_int64 z = z.
Proof. intros H. apply signed_in_range; [lia | exact H]. Qed.

Lemma to_uint64_id (z : Z) : is_uint64 z -> to_uint64 z = z.
Proof. intros H. apply Z.mod_small. exact H. Qed.

Lemma to_int_is_int (z : Z) : is_int (to_int z).
Proof. apply (signed_bounds 32); lia. Qed.

Lemma to_int64_is_int64 (z : Z) : is_int64 (to_int64 z).
Proof. apply (signed_bounds 64); lia. Qed.

Lemma to_int64_add_r (a b : Z) : to_int64 (a + to_int64 b) = to_int64 (a + b).
Proof.
  unfold to_int64. apply signed_congr; [lia|].
  rewrite <- Z.add_mod_idemp_r, signed_mod, Z.add_mod_idemp_r by lia.
  reflexivity.
Qed.

Lemma to_int64_add_l (a b : Z) : to_int64 (to_int64 a + b) = to_int64 (a + b).
Proof. rewrite (Z.add_comm (to_int64 a)), to_int64_add_r. f_equal. lia. Qed.

(** ** The message box *)

Lemma messageBox_push_not_full (line : string) (u : list string) :
  (length u < 5)%nat -> Screen.messageBox_push line u = u ++ [line].
Proof.
  intros H. unfold Screen.messageBox_push. rewrite length_app. simpl.
  destruct (Nat.ltb_spec 5 (length u + 1)); [lia | reflexivity].
Qed.

(** Once five entries are held, a pushed line is removed again at once. *)
Lemma messageBox_push_full (line : string) (u : list string) :
  (5 <= length u)%nat -> Screen.messageBox_push line u = u.
Proof.
  intros H. unfold Screen.messageBox_push. rewrite length_app. simpl.
  destruct (Nat.ltb_spec 5 (length u + 1)); [apply removelast_last | lia].
Qed.

(** The box never holds more than five entries. *)
Lemma messageBox_push_length (line : string) (u : list string) :
  (length u <= 5)%nat -> (length (Screen.messageBox_push line u) <= 5)%nat.
Proof.
  intros H. destruct (Nat.lt_ge_cases (length u) 5) as [L | L].
  - rewrite messageBox_push_not_full by exact L. rewrite length_app. simpl. lia.
  - rewrite messageBox_push_full by exact L. exact H.
Qed.

Lemma push_all_take (lines u : list string) :
  (length u <= 5)%nat -> Screen.push_all u lines = take 5 (u ++ lines).
Proof.
  revert u. induction lines as [| line lines IH]; intros u Hu; simpl.
  - rewrite app_nil_r, take_ge; [reflexivity | exact Hu].
  - unfold Screen.push_all in *. simpl.
    rewrite IH by (apply messageBox_push_length; exact Hu).
    destruct (Nat.lt_ge_cases (length u) 5) as [L | L].
    + rewrite messageBox_push_not_full by exact L.
      rewrite <- app_assoc. reflexivity.
    + rewrite messageBox_push_full by exact L.
      rewrite !take_app_le by exact L. reflexivity.
Qed.

(** From an empty box, the entries held are the first five lines ever pushed,
    not the last five. *)
Lemma push_all_keeps_first_five (lines : list string) :
  Screen.push_all [] lines = take 5 lines.
Proof. apply (push_all_take lines []). simpl. lia. Qed.

Lemma push_all_length (lines : list string) :
  (length (Screen.push_all [] lines) <= 5)%nat.
Proof. rewrite push_all_keeps_first_five, length_take. lia. Qed.

(** C1. The message box is bounded by five entries, but the sixth message
    does not evict the oldest one: [pop_back] removes the line that was just
    pushed. After posting "m1" to "m6" the box still holds "m1" to "m5", where
    the claim expects "m2" to "m6". *)
Theorem C1_sixth_message_is_dropped :
  let i := Screen.mk_ui 1 2 4 8 "Error" "Warning" "Information" in
  let post m s := fst (Screen.metrics_ThreadSafeMessageBox i 0 m "log" 0 s) in
  let s5 := post "m5" (post "m4" (post "m3" (post "m2" (post "m1" Screen.init)))) in
  let s6 := post "m6" s5 in
  Screen.messageBox s5
    = ["log: m1"; "log: m2"; "log: m3"; "log: m4"; "log: m5"] /\
  Screen.messageBox s6 = Screen.messageBox s5 /\
  Screen.messageBox s6
    <> ["log: m2"; "log: m3"; "log: m4"; "log: m5"; "log: m6"] /\
  (forall lines, (length (Screen.push_all [] lines) <= 5)%nat) /\
  (forall lines, Screen.push_all [] lines = take 5 lines).
Proof.
  cbv zeta. repeat split.
  - discriminate.
  - apply push_all_length.
  - apply push_all_keeps_first_five.
Qed.

(** ** The interval timer *)

Lemma stop_idle (now : Z) (tm : AtomicTimer.t) :
  AtomicTimer.threads tm = 0 -> AtomicTimer.stop now tm = tm.
Proof. intros H. unfold AtomicTimer.stop. rewrite H. reflexivity. Qed.

Lemma stop_start_time (now : Z) (tm : AtomicTimer.t) :
  AtomicTimer.start_time (AtomicTimer.stop now tm) = AtomicTimer.start_time tm.
Proof.
  unfold AtomicTimer.stop.
  destruct (0 <? AtomicTimer.threads tm); [| reflexivity].
  destruct (_ <? 1); reflexivity.
Qed.

Lemma stop_threads (now : Z) (tm : AtomicTimer.t) :
  0 < AtomicTimer.threads tm < 2 ^ 64 ->
  AtomicTimer.threads (AtomicTimer.stop now tm) = AtomicTimer.threads tm - 1.
Proof.
  intros H. unfold AtomicTimer.stop.
  destruct (Z.ltb_spec 0 (AtomicTimer.threads tm)); [| lia].
  rewrite to_uint64_id by in_range.
  destruct (_ <? 1); reflexivity.
Qed.

Lemma stop_total_last (now : Z) (tm : AtomicTimer.t) :
  AtomicTimer.threads tm = 1 ->
  AtomicTimer.total_time (AtomicTimer.stop now tm)
  = to_int64 (AtomicTimer.total_time tm + (now - AtomicTimer.start_time tm)).
Proof.
  intros H. unfold AtomicTimer.stop. rewrite H. simpl.
  apply to_int64_add_r.
Qed.

Lemma stop_total_others (now : Z) (tm : AtomicTimer.t) :
  AtomicTimer.threads tm <> 1 -> 0 <= AtomicTimer.threads tm < 2 ^ 64 ->
  AtomicTimer.total_time (AtomicTimer.stop now tm) = AtomicTimer.total_time tm.
Proof.
  intros H1 H. unfold AtomicTimer.stop.
  destruct (Z.ltb_spec 0 (AtomicTimer.threads tm)); [| reflexivity].
  rewrite to_uint64_id by in_range.
  destruct (Z.ltb_spec (AtomicTimer.threads tm - 1) 1); [lia | reflexivity].
Qed.

(** C3 (the claim as stated fails). [stop()] never writes [start_time]: after
    the last active caller stops, the field still holds the start of the
    interval that was just closed, so no reading of "set" makes [start()] set
    it and [stop()] clear it. *)
Lemma C3_stop_keeps_start_time :
  (let tm := AtomicTimer.start 100 AtomicTimer.init in
   let tm' := AtomicTimer.stop 160 tm in
   AtomicTimer.threads tm = 1 /\ AtomicTimer.start_time tm = 100 /\
   AtomicTimer.threads tm' = 0 /\ AtomicTimer.total_time tm' = 60 /\
   AtomicTimer.start_time tm' = 100) /\
  ~ (exists is_set, AtomicTimer.start_sets is_set /\
                    AtomicTimer.stop_clears is_set).
Proof.
  split; [cbv zeta; repeat split |].
  intros (is_set & Hset & Hclear).
  pose (tm := AtomicTimer.start 100 AtomicTimer.init).
  assert (S : is_set (AtomicTimer.start_time tm) = true)
    by (apply Hset; [lia | reflexivity]).
  assert (C : is_set (AtomicTimer.start_time (AtomicTimer.stop 160 tm)) = false)
    by (apply Hclear; [lia | reflexivity]).
  rewrite stop_start_time in C. congruence.
Qed.

(** C3 (amended). On a timer whose [threads] is a [uint64_t]: with an active
    thread, [stop()] decrements [threads] and leaves [start_time] as it is;
    on the transition 1 to 0 it adds [now - start_time] to [total_time], which
    otherwise stays; with no active thread the call changes no field. *)
Theorem C3_stop_amended (now : Z) (tm : AtomicTimer.t) :
  is_uint64 (AtomicTimer.threads tm) ->
  (0 < AtomicTimer.threads tm ->
     AtomicTimer.threads (AtomicTimer.stop now tm) = AtomicTimer.threads tm - 1 /\
     AtomicTimer.start_time (AtomicTimer.stop now tm) = AtomicTimer.start_time tm /\
     (AtomicTimer.threads tm = 1 ->
        AtomicTimer.total_time (AtomicTimer.stop now tm)
        = to_int64 (AtomicTimer.total_time tm
                    + (now - AtomicTimer.start_time tm)) /\
        (is_int64 (AtomicTimer.total_time tm
                   + (now - AtomicTimer.start_time tm)) ->
         AtomicTimer.total_time (AtomicTimer.stop now tm)
         = AtomicTimer.total_time tm + (now - AtomicTimer.start_time tm))) /\
     (1 < AtomicTimer.threads tm ->
        AtomicTimer.total_time (AtomicTimer.stop now tm)
        = AtomicTimer.total_time tm)) /\
  (AtomicTimer.threads tm = 0 -> AtomicTimer.stop now tm = tm).
Proof.
  intros U. unfold is_uint64 in U. split; [intros P | apply stop_idle].
  split; [apply stop_threads; lia |].
  split; [apply stop_start_time |].
  split.
  - intros One. pose proof (stop_total_last now tm One) as E.
    split; [exact E |]. intros R. rewrite E. apply to_int64_id, R.
  - intros Many. apply stop_total_others; lia.
Qed.

Lemma C3_stop_amended_witness :
  let tm := AtomicTimer.mk 1 100 40 in
  is_uint64 (AtomicTimer.threads tm) /\
  AtomicTimer.threads (AtomicTimer.stop 160 tm) = 0 /\
  AtomicTimer.start_time (AtomicTimer.stop 160 tm) = 100 /\
  AtomicTimer.total_time (AtomicTimer.stop 160 tm) = 100.
Proof.
  assert (U : is_uint64 (AtomicTimer.threads (AtomicTimer.mk 1 100 40)))
    by (unfold is_uint64; simpl; lia).
  pose proof (C3_stop_amended 160 (AtomicTimer.mk 1 100 40) U) as [H _].
  destruct (H ltac:(simpl; lia)) as (Ht & Hs & Hl & _).
  destruct (Hl eq_refl) as [_ He].
  cbv zeta. split; [exact U |]. split; [exact Ht |]. split; [exact Hs |].
  apply He. unfold is_int64. simpl. lia.
Defined.

Lemma rate_duration_spec (now : Z) (tm : AtomicTimer.t) :
  is_int64 (AtomicTimer.spec_duration now tm) ->
  AtomicTimer.rate_duration now tm = AtomicTimer.spec_duration now tm.
Proof.
  unfold AtomicTimer.rate_duration, AtomicTimer.spec_duration,
    AtomicTimer.running.
  destruct (0 <? AtomicTimer.threads tm); intros R.
  - rewrite to_int64_add_r. apply to_int64_id, R.
  - lia.
Qed.

(** C4. [rate] divides the counter by the accumulated duration plus, while
    the timer runs, the open interval [now - start_time], when that duration
    is positive, and returns 0 otherwise; a running timer is rated over the
    open interval too. *)
Theorem C4_rate_includes_open_interval
    (now : Z) (count : AtomicCounter.t) (tm : AtomicTimer.t) :
  is_int64 (AtomicTimer.spec_duration now tm) ->
  AtomicTimer.rate now count tm
  = (if 0 <? AtomicTimer.spec_duration now tm
     then (CDouble.of_Z (AtomicCounter.get count)
           / CDouble.of_Z (AtomicTimer.spec_duration now tm))%float
     else 0%float) /\
  (AtomicTimer.running tm = true ->
   0 < AtomicTimer.total_time tm + (now - AtomicTimer.start_time tm) ->
   AtomicTimer.rate now count tm
   = (CDouble.of_Z (AtomicCounter.get count)
      / CDouble.of_Z (AtomicTimer.total_time tm
                      + (now - AtomicTimer.start_time tm)))%float).
Proof.
  intros R.
  assert (E : AtomicTimer.rate now count tm
              = (if 0 <? AtomicTimer.spec_duration now tm
                 then (CDouble.of_Z (AtomicCounter.get count)
                       / CDouble.of_Z (AtomicTimer.spec_duration now tm))%float
                 else 0%float)).
  { unfold AtomicTimer.rate. rewrite rate_duration_spec by exact R.
    destruct (0 <? _); reflexivity. }
  split; [exact E |]. intros Run Pos. rewrite E.
  unfold AtomicTimer.spec_duration. rewrite Run.
  destruct (Z.ltb_spec 0 (AtomicTimer.total_time tm
                          + (now - AtomicTimer.start_time tm)));
    [reflexivity | lia].
Qed.

(** One event counted four seconds after the timer was started, with no
    stop yet: the rate is a quarter, not 0. *)
Lemma C4_rate_includes_open_interval_witness :
  let tm := AtomicTimer.start 100 AtomicTimer.init in
  is_int64 (AtomicTimer.spec_duration 104 tm) /\
  AtomicTimer.running tm = true /\
  AtomicTimer.rate 104 1%N tm = 0.25%float.
Proof.
  cbv zeta.
  assert (R : is_int64 (AtomicTimer.spec_duration 104
                          (AtomicTimer.start 100 AtomicTimer.init)))
    by (unfold is_int64; vm_compute; split; congruence).
  split; [exact R |]. split; [reflexivity |].
  destruct (C4_rate_includes_open_interval 104 1%N _ R) as [E _].
  rewrite E. vm_compute. reflexivity.
Defined.

(** *** Matching starts and stops *)

Lemma starts_app (a b : list AtomicTimer.call) :
  AtomicTimer.starts (a ++ b) = (AtomicTimer.starts a + AtomicTimer.starts b)%nat.
Proof. unfold AtomicTimer.starts. rewrite filter_app, length_app. reflexivity. Qed.

Lemma stops_app (a b : list AtomicTimer.call) :
  AtomicTimer.stops (a ++ b) = (AtomicTimer.stops a + AtomicTimer.stops b)%nat.
Proof. unfold AtomicTimer.stops. rewrite filter_app, length_app. reflexivity. Qed.

Lemma starts_snoc (a : list AtomicTimer.call) (c : AtomicTimer.call) :
  AtomicTimer.starts (a ++ [c])
  = (AtomicTimer.starts a
     + match c with AtomicTimer.Start => 1 | AtomicTimer.Stop => 0 end)%nat.
Proof. rewrite starts_app. destruct c; reflexivity. Qed.

Lemma stops_snoc (a : list AtomicTimer.call) (c : AtomicTimer.call) :
  AtomicTimer.stops (a ++ [c])
  = (AtomicTimer.stops a
     + match c with AtomicTimer.Start => 0 | AtomicTimer.Stop => 1 end)%nat.
Proof. rewrite stops_app. destruct c; reflexivity. Qed.

Lemma pending_snoc (calls : list AtomicTimer.call) (c : AtomicTimer.call) :
  AtomicTimer.pending (calls ++ [c])
  = AtomicTimer.pending_step (AtomicTimer.pending calls) c.
Proof. unfold AtomicTimer.pending. rewrite fold_left_app. reflexivity. Qed.

(** A history that ends in [c] splits either before [c] or after it. *)
Lemma split_snoc {A : Type} (l pre post : list A) (c : A) :
  l ++ [c] = pre ++ post ->
  (post = [] /\ pre = l ++ [c]) \/
  (exists post0, post = post0 ++ [c] /\ l = pre ++ post0).
Proof.
  intros E. destruct post as [| x post] using rev_ind.
  - left. rewrite app_nil_r in E. auto.
  - right. exists post. rewrite app_assoc in E.
    apply app_inj_tail in E as [E1 E2]. subst. auto.
Qed.

(** The pending count exceeds [k] exactly when some suffix of the history has
    more than [k] starts in excess of its stops. *)
Lemma pending_exceeds (calls : list AtomicTimer.call) (k : nat) :
  (k < AtomicTimer.pending calls)%nat <->
  exists pre post, calls = pre ++ post /\
    (AtomicTimer.stops post + k < AtomicTimer.starts post)%nat.
Proof.
  revert k. induction calls as [| c calls IH] using rev_ind; intros k.
  - split.
    + unfold AtomicTimer.pending. simpl. lia.
    + intros (pre & post & E & H). symmetry in E.
      apply app_eq_nil in E as [_ ->]. cbv in H. lia.
  - rewrite pending_snoc. split.
    + intros H. destruct c; simpl in H.
      * destruct k as [| k].
        -- exists calls, [AtomicTimer.Start]. split; [reflexivity |].
           cbv. lia.
        -- apply Nat.succ_lt_mono, IH in H as (pre & post & -> & H).
           exists pre, (post ++ [AtomicTimer.Start]).
           split; [symmetry; apply app_assoc |].
           rewrite starts_snoc, stops_snoc. lia.
      * assert (H' : (S k < AtomicTimer.pending calls)%nat) by lia.
        apply IH in H' as (pre & post & -> & H').
        exists pre, (post ++ [AtomicTimer.Stop]).
        split; [symmetry; apply app_assoc |].
        rewrite starts_snoc, stops_snoc. lia.
    + intros (pre & post & E & H).
      apply split_snoc in E as [[-> _] | (post0 & -> & ->)]; [cbv in H; lia |].
      rewrite starts_snoc, stops_snoc in H.
      destruct c; simpl.
      * destruct k as [| k]; [lia |].
        apply -> Nat.succ_lt_mono. apply IH.
        exists pre, post0. split; [reflexivity | lia].
      * assert (H' : (S k < AtomicTimer.pending (pre ++ post0))%nat).
        { apply IH. exists pre, post0. split; [reflexivity | lia]. }
        lia.
Qed.

Lemma pending_unmatched (calls : list AtomicTimer.call) :
  (0 < AtomicTimer.pending calls)%nat <-> AtomicTimer.unmatched_start calls.
Proof.
  rewrite pending_exceeds. unfold AtomicTimer.unmatched_start.
  split; intros (pre & post & E & H); exists pre, post; (split; [exact E | lia]).
Qed.

(** *** Reachable states of the timer *)

Lemma invariant_init : AtomicTimer.invariant 0 0 AtomicTimer.init.
Proof. unfold AtomicTimer.invariant. simpl. lia. Qed.

Lemma start_invariant (last now : Z) (n : nat) (tm : AtomicTimer.t) :
  AtomicTimer.invariant last n tm -> last <= now < 2 ^ 63 ->
  Z.of_nat (S n) < 2 ^ 64 ->
  AtomicTimer.invariant now (S n) (AtomicTimer.start now tm) /\
  AtomicTimer.threads (AtomicTimer.start now tm) = AtomicTimer.threads tm + 1 /\
  AtomicTimer.total_time (AtomicTimer.start now tm) = AtomicTimer.total_time tm.
Proof.
  intros (Hl & Ht & Ha & Hs) Hn Hb.
  unfold AtomicTimer.invariant, AtomicTimer.start. simpl.
  rewrite to_uint64_id by in_range.
  destruct (Z.ltb_spec (AtomicTimer.threads tm) 1); lia.
Qed.

Lemma stop_invariant (last now : Z) (n : nat) (tm : AtomicTimer.t) :
  AtomicTimer.invariant last n tm -> last <= now < 2 ^ 63 ->
  Z.of_nat (S n) < 2 ^ 64 ->
  AtomicTimer.invariant now (S n) (AtomicTimer.stop now tm) /\
  AtomicTimer.threads (AtomicTimer.stop now tm)
  = Z.max 0 (AtomicTimer.threads tm - 1) /\
  AtomicTimer.total_time tm <= AtomicTimer.total_time (AtomicTimer.stop now tm) /\
  (AtomicTimer.total_time tm <> AtomicTimer.total_time (AtomicTimer.stop now tm) ->
   AtomicTimer.threads tm = 1 /\
   AtomicTimer.threads (AtomicTimer.stop now tm) = 0).
Proof.
  intros (Hl & Ht & Ha & Hs) Hn Hb.
  unfold AtomicTimer.invariant, AtomicTimer.stop.
  destruct (Z.ltb_spec 0 (AtomicTimer.threads tm)) as [P | P]; [| lia].
  rewrite to_uint64_id by in_range.
  destruct (Hs P) as (Hs1 & Hs2).
  destruct (Z.ltb_spec (AtomicTimer.threads tm - 1) 1); simpl; [| lia].
  rewrite (to_int64_id (now - _)) by in_range.
  rewrite to_int64_id by in_range.
  lia.
Qed.

(** One call on a reachable timer: the invariant is kept, the thread count
    follows the pending count, and the accumulated duration never shrinks and
    moves only when the last active caller stops. *)
Lemma step_invariant (last now : Z) (n : nat) (tm : AtomicTimer.t)
    (c : AtomicTimer.call) :
  AtomicTimer.invariant last n tm -> last <= now < 2 ^ 63 ->
  Z.of_nat (S n) < 2 ^ 64 ->
  AtomicTimer.invariant now (S n) (AtomicTimer.step tm (c, now)) /\
  Z.to_nat (AtomicTimer.threads (AtomicTimer.step tm (c, now)))
  = AtomicTimer.pending_step (Z.to_nat (AtomicTimer.threads tm)) c /\
  AtomicTimer.total_time tm
  <= AtomicTimer.total_time (AtomicTimer.step tm (c, now)) /\
  (AtomicTimer.total_time tm
   <> AtomicTimer.total_time (AtomicTimer.step tm (c, now)) ->
   AtomicTimer.threads tm = 1 /\
   AtomicTimer.threads (AtomicTimer.step tm (c, now)) = 0).
Proof.
  intros I Hn Hb. pose proof I as (_ & Ht & _).
  destruct c; cbn [AtomicTimer.step AtomicTimer.pending_step].
  - destruct (start_invariant _ _ _ _ I Hn Hb) as (I' & T & A).
    rewrite T, A. refine (conj I' (conj _ (conj _ _))); lia.
  - destruct (stop_invariant _ _ _ _ I Hn Hb) as (I' & T & A & B).
    refine (conj I' (conj _ (conj A B))). rewrite T. lia.
Qed.

Lemma run_invariant (trace : list (AtomicTimer.call * Z)) :
  forall (last : Z) (n : nat) (tm : AtomicTimer.t),
  AtomicTimer.invariant last n tm ->
  AtomicTimer.clock_ok last trace = true ->
  Z.of_nat (n + length trace) < 2 ^ 64 ->
  Z.to_nat (AtomicTimer.threads (AtomicTimer.run tm trace))
  = fold_left AtomicTimer.pending_step (map fst trace)
      (Z.to_nat (AtomicTimer.threads tm)).
Proof.
  induction trace as [| [c now] trace IH]; intros last n tm I C B;
    [reflexivity |].
  simpl in C. apply andb_prop in C as [C C3]. apply andb_prop in C as [C1 C2].
  apply Z.leb_le in C1. apply Z.ltb_lt in C2.
  simpl length in B.
  destruct (step_invariant last now n tm c I) as (I' & T & _); [lia | lia |].
  simpl. rewrite <- T. apply (IH now (S n)); [exact I' | exact C3 | lia].
Qed.

Lemma run_step_total (pre : list (AtomicTimer.call * Z)) :
  forall (ev : AtomicTimer.call * Z) (post : list (AtomicTimer.call * Z))
         (last : Z) (n : nat) (tm : AtomicTimer.t),
  AtomicTimer.invariant last n tm ->
  AtomicTimer.clock_ok last (pre ++ ev :: post) = true ->
  Z.of_nat (n + length (pre ++ ev :: post)) < 2 ^ 64 ->
  AtomicTimer.total_time (AtomicTimer.run tm pre)
  <= AtomicTimer.total_time (AtomicTimer.step (AtomicTimer.run tm pre) ev) /\
  (AtomicTimer.total_time (AtomicTimer.run tm pre)
   <> AtomicTimer.total_time (AtomicTimer.step (AtomicTimer.run tm pre) ev) ->
   AtomicTimer.threads (AtomicTimer.run tm pre) = 1 /\
   AtomicTimer.threads (AtomicTimer.step (AtomicTimer.run tm pre) ev) = 0).
Proof.
  induction pre as [| [c now] pre IH]; intros ev post last n tm I C B.
  - destruct ev as [c now]. simpl in C.
    apply andb_prop in C as [C _]. apply andb_prop in C as [C1 C2].
    apply Z.leb_le in C1. apply Z.ltb_lt in C2. simpl length in B.
    destruct (step_invariant last now n tm c I) as (_ & _ & M); [lia | lia |].
    exact M.
  - simpl in C. apply andb_prop in C as [C C3]. apply andb_prop in C as [C1 C2].
    apply Z.leb_le in C1. apply Z.ltb_lt in C2. simpl length in B.
    destruct (step_invariant last now n tm c I) as (I' & _); [lia | lia |].
    apply (IH ev post now (S n)); [exact I' | exact C3 | lia].
Qed.

(** *** The thread count without any assumption on the clock *)

Lemma step_threads (n : nat) (tm : AtomicTimer.t) (c : AtomicTimer.call)
    (now : Z) :
  0 <= AtomicTimer.threads tm <= Z.of_nat n ->
  Z.of_nat (S n) < 2 ^ 64 ->
  0 <= AtomicTimer.threads (AtomicTimer.step tm (c, now)) <= Z.of_nat (S n) /\
  Z.to_nat (AtomicTimer.threads (AtomicTimer.step tm (c, now)))
  = AtomicTimer.pending_step (Z.to_nat (AtomicTimer.threads tm)) c /\
  (AtomicTimer.total_time tm
   <> AtomicTimer.total_time (AtomicTimer.step tm (c, now)) ->
   AtomicTimer.threads tm = 1 /\
   AtomicTimer.threads (AtomicTimer.step tm (c, now)) = 0).
Proof.
  intros T B. destruct c; cbn [AtomicTimer.step AtomicTimer.pending_step].
  - unfold AtomicTimer.start. simpl.
    rewrite to_uint64_id by in_range. split; [lia |]. split; [lia | congruence].
  - unfold AtomicTimer.stop.
    destruct (Z.ltb_spec 0 (AtomicTimer.threads tm)) as [P | P].
    + rewrite to_uint64_id by in_range.
      destruct (Z.ltb_spec (AtomicTimer.threads tm - 1) 1); simpl.
      * split; [lia |]. split; [lia |]. intros _. lia.
      * split; [lia |]. split; [lia | congruence].
    + split; [lia |]. split; [lia | congruence].
Qed.

Lemma run_threads (trace : list (AtomicTimer.call * Z)) :
  forall (n : nat) (tm : AtomicTimer.t),
  0 <= AtomicTimer.threads tm <= Z.of_nat n ->
  Z.of_nat (n + length trace) < 2 ^ 64 ->
  0 <= AtomicTimer.threads (AtomicTimer.run tm trace) /\
  Z.to_nat (AtomicTimer.threads (AtomicTimer.run tm trace))
  = fold_left AtomicTimer.pending_step (map fst trace)
      (Z.to_nat (AtomicTimer.threads tm)).
Proof.
  induction trace as [| [c now] trace IH]; intros n tm T B;
    [split; [simpl; lia | reflexivity] |].
  simpl length in B.
  destruct (step_threads n tm c now T) as (T' & E & _); [lia |].
  simpl. rewrite <- E. apply (IH (S n)); [exact T' | lia].
Qed.

Lemma run_step_changes (pre : list (AtomicTimer.call * Z)) :
  forall (ev : AtomicTimer.call * Z) (post : list (AtomicTimer.call * Z))
         (n : nat) (tm : AtomicTimer.t),
  0 <= AtomicTimer.threads tm <= Z.of_nat n ->
  Z.of_nat (n + length (pre ++ ev :: post)) < 2 ^ 64 ->
  AtomicTimer.total_time (AtomicTimer.run tm pre)
  <> AtomicTimer.total_time (AtomicTimer.step (AtomicTimer.run tm pre) ev) ->
  AtomicTimer.threads (AtomicTimer.run tm pre) = 1 /\
  AtomicTimer.threads (AtomicTimer.step (AtomicTimer.run tm pre) ev) = 0.
Proof.
  induction pre as [| [c now] pre IH]; intros ev post n tm T B.
  - destruct ev as [c now]. simpl length in B.
    destruct (step_threads n tm c now T) as (_ & _ & M); [lia | exact M].
  - simpl length in B.
    destruct (step_threads n tm c now T) as (T' & _); [lia |].
    apply (IH ev post (S n)); [exact T' | lia].
Qed.

(** C8 (the claim as stated fails). [stop()] adds [GetTime() - start_time]
    with no test of its sign: when the clock is read at 100 by [start()] and
    at 40 by the matching [stop()], the accumulated duration goes from 0
    to -60. It is therefore not non-decreasing on every sequence of calls. *)
Lemma C8_clock_set_back_lowers_total_time :
  (let before := AtomicTimer.run AtomicTimer.init [(AtomicTimer.Start, 100)] in
   let after := AtomicTimer.step before (AtomicTimer.Stop, 40) in
   AtomicTimer.threads before = 1 /\ AtomicTimer.total_time before = 0 /\
   AtomicTimer.threads after = 0 /\ AtomicTimer.total_time after = -60) /\
  ~ (forall (pre : list (AtomicTimer.call * Z)) (ev : AtomicTimer.call * Z),
       AtomicTimer.total_time (AtomicTimer.run AtomicTimer.init pre)
       <= AtomicTimer.total_time
            (AtomicTimer.step (AtomicTimer.run AtomicTimer.init pre) ev)).
Proof.
  split; [cbv zeta; repeat split |].
  intros H.
  specialize (H [(AtomicTimer.Start, 100)] (AtomicTimer.Stop, 40)).
  vm_compute in H. apply H. reflexivity.
Qed.

(** C8 (amended). On every history of fewer than 2^64 [start()] and
    [stop()] calls made on a fresh timer, whatever the clock readings are:
    [running()] is true exactly when some start is not yet matched by a stop
    (the thread count is positive), and the accumulated duration changes
    only at a step where the thread count goes from 1 to 0. When moreover
    the clock readings are non-negative [int64_t] values that never go
    backwards, the accumulated duration never decreases. *)
Theorem C8_running_and_accumulated_duration
    (trace : list (AtomicTimer.call * Z)) :
  Z.of_nat (length trace) < 2 ^ 64 ->
  (AtomicTimer.running (AtomicTimer.run AtomicTimer.init trace) = true <->
   AtomicTimer.unmatched_start (map fst trace)) /\
  (AtomicTimer.running (AtomicTimer.run AtomicTimer.init trace) = true <->
   0 < AtomicTimer.threads (AtomicTimer.run AtomicTimer.init trace)) /\
  (forall pre ev post, trace = pre ++ ev :: post ->
     let before := AtomicTimer.run AtomicTimer.init pre in
     let after := AtomicTimer.step before ev in
     AtomicTimer.total_time before <> AtomicTimer.total_time after ->
     AtomicTimer.threads before = 1 /\ AtomicTimer.threads after = 0) /\
  (AtomicTimer.clock_ok 0 trace = true ->
   forall pre ev post, trace = pre ++ ev :: post ->
     let before := AtomicTimer.run AtomicTimer.init pre in
     let after := AtomicTimer.step before ev in
     AtomicTimer.total_time before <= AtomicTimer.total_time after).
Proof.
  intros B.
  assert (R : AtomicTimer.running (AtomicTimer.run AtomicTimer.init trace) = true
              <-> 0 < AtomicTimer.threads (AtomicTimer.run AtomicTimer.init trace)).
  { unfold AtomicTimer.running. apply Z.ltb_lt. }
  assert (T0 : 0 <= AtomicTimer.threads AtomicTimer.init <= Z.of_nat 0)
    by (simpl; lia).
  split; [| split; [exact R | split]].
  - rewrite R, <- pending_unmatched.
    destruct (run_threads trace 0%nat AtomicTimer.init T0 B) as [P E].
    change (fold_left _ _ _) with (AtomicTimer.pending (map fst trace)) in E.
    rewrite <- E. lia.
  - intros pre ev post ->. cbv zeta.
    apply (run_step_changes pre ev post 0%nat); [exact T0 | exact B].
  - intros C pre ev post ->. cbv zeta.
    apply (run_step_total pre ev post 0 0%nat);
      [apply invariant_init | exact C | exact B].
Qed.

(** A history whose clock is set back between a start and its stop: the
    matching of starts and stops is as usual, and the only change of the
    accumulated duration is at the step from 1 to 0 threads. *)
Lemma C8_running_and_accumulated_duration_witness :
  let trace := [(AtomicTimer.Stop, 90); (AtomicTimer.Start, 100);
                (AtomicTimer.Start, 105); (AtomicTimer.Stop, 110);
                (AtomicTimer.Stop, 40); (AtomicTimer.Start, 170)] in
  Z.of_nat (length trace) < 2 ^ 64 /\
  AtomicTimer.running (AtomicTimer.run AtomicTimer.init trace) = true /\
  AtomicTimer.unmatched_start (map fst trace) /\
  AtomicTimer.total_time (AtomicTimer.run AtomicTimer.init trace) = -60.
Proof.
  cbv zeta.
  assert (B : Z.of_nat (length [(AtomicTimer.Stop, 90); (AtomicTimer.Start, 100);
                (AtomicTimer.Start, 105); (AtomicTimer.Stop, 110);
                (AtomicTimer.Stop, 40); (AtomicTimer.Start, 170)]) < 2 ^ 64)
    by (simpl; lia).
  split; [exact B |]. split; [reflexivity |]. split; [| reflexivity].
  apply (C8_running_and_accumulated_duration _ B). reflexivity.
Defined.

(** ** The network height estimator *)

Lemma fst_bind {A B : Type} (m : NetHeight.Div A) (k : A -> NetHeight.Div B) :
  fst (NetHeight.bind m k) = fst (k (fst m)).
Proof. reflexivity. Qed.

Lemma snd_bind {A B : Type} (m : NetHeight.Div A) (k : A -> NetHeight.Div B) :
  snd (NetHeight.bind m k) = snd m ++ snd (k (fst m)).
Proof. reflexivity. Qed.

Lemma CDouble_to_int_is_int (x : float) : is_int (CDouble.to_int x).
Proof.
  unfold CDouble.to_int, is_int, INT_MIN, INT_MAX.
  destruct (CDouble.trunc x) as [z |]; [| lia].
  destruct (Z.leb_spec (- 2 ^ 31) z), (Z.leb_spec z (2 ^ 31 - 1)); simpl; lia.
Qed.

(** [(x / 10) * 10] on an [int] never overflows. *)
Lemma round_int (x : Z) :
  is_int x -> to_int (to_int (Z.quot x 10) * 10) = Z.quot x 10 * 10.
Proof.
  unfold is_int. intros H.
  pose proof (Z.quot_rem' x 10) as E.
  assert (R : (0 <= x -> 0 <= Z.rem x 10 < 10) /\
              (x <= 0 -> -10 < Z.rem x 10 <= 0)).
  { split; intros S.
    - apply Z.rem_bound_pos; lia.
    - pose proof (Z.rem_bound_pos (- x) 10). pose proof (Z.rem_opp_l' x 10).
      lia. }
  rewrite (to_int_id (Z.quot x 10)) by in_range.
  apply to_int_id. unfold is_int. lia.
Qed.

Lemma estimate_rounds (span now height tip hLC tLC gen target : Z) :
  exists x, is_int x /\
    NetHeight.EstimateNetHeightInner span now height tip hLC tLC gen target
    = Z.quot x 10 * 10.
Proof.
  unfold NetHeight.EstimateNetHeightInner, NetHeight.EstimateNetHeightInner_div.
  rewrite !fst_bind. unfold NetHeight.int_div at 1. cbn [fst NetHeight.ret].
  eexists. split; [| apply round_int]; apply to_int_is_int.
Qed.

Lemma quot_bounds (x k : Z) :
  0 < k ->
  (0 <= x -> 0 <= Z.quot x k <= x) /\ (x <= 0 -> x <= Z.quot x k <= 0).
Proof.
  intros K.
  assert (P : forall y, 0 <= y -> 0 <= Z.quot y k <= y).
  { intros y Y. rewrite Z.quot_div_nonneg by lia.
    pose proof (Z.div_pos y k Y K). pose proof (Z.mul_div_le y k K). nia. }
  split; intros S; [apply P, S |].
  pose proof (P (- x) ltac:(lia)) as Q.
  rewrite Z.quot_opp_l in Q by lia. lia.
Qed.

Lemma quot_is_int (x k : Z) : 0 < k -> is_int x -> is_int (Z.quot x k).
Proof.
  unfold is_int. intros K H. destruct (quot_bounds x k K) as [P N].
  destruct (Z.le_ge_cases 0 x); [specialize (P ltac:(lia)) | specialize (N ltac:(lia))]; lia.
Qed.

Lemma medianHeight_is_int (span height : Z) :
  is_int (fst (NetHeight.medianHeight_of span height)).
Proof.
  unfold NetHeight.medianHeight_of.
  destruct (span <? height); [rewrite fst_bind |]; apply to_int_is_int.
Qed.

Lemma medianHeight_spec (span height : Z) :
  1 <= span < 2 ^ 31 -> is_int height ->
  fst (NetHeight.medianHeight_of span height)
  = NetHeight.spec_medianHeight span height.
Proof.
  unfold is_int. intros S H.
  unfold NetHeight.medianHeight_of, NetHeight.spec_medianHeight.
  destruct (Z.ltb_spec span height) as [L | L].
  - rewrite fst_bind. cbn [fst NetHeight.int_div NetHeight.ret].
    destruct (quot_bounds (span - 1) 2 ltac:(lia)) as [Q _].
    specialize (Q ltac:(lia)).
    rewrite (to_int_id (span - 1)) by in_range.
    rewrite (to_int_id (Z.quot _ _)) by in_range.
    rewrite (to_int_id (1 + _)) by in_range.
    apply to_int_id. unfold is_int. lia.
  - cbn [fst NetHeight.int_div]. apply to_int_id, quot_is_int; [lia | exact H].
Qed.

Lemma checkpointSpacing_spec (median tip hLC tLC gen : Z) :
  is_int median -> 0 <= hLC < 2 ^ 31 ->
  0 <= tip < 2 ^ 63 -> 0 <= tLC < 2 ^ 63 -> 0 <= gen < 2 ^ 63 ->
  fst (NetHeight.checkpointSpacing_of median tip hLC tLC gen)
  = NetHeight.spec_checkpointSpacing median tip hLC tLC gen.
Proof.
  unfold is_int. intros M C T L G.
  unfold NetHeight.checkpointSpacing_of, NetHeight.spec_checkpointSpacing.
  destruct (Z.ltb_spec hLC median); cbn [fst NetHeight.double_div_int].
  - rewrite to_int64_id by in_range.
    rewrite to_int_id by in_range. reflexivity.
  - rewrite to_int64_id by in_range. reflexivity.
Qed.

(** C5. [EstimateNetHeightInner] always returns a multiple of 10, and on
    arguments within the ranges of their types (heights are [int]s, the
    checkpoint height is not negative, times are non-negative [int64_t]s, and
    the estimate plus 5 fits an [int]) it is the computation of section 4.3:
    median height, checkpoint spacing from above or below the checkpoint,
    average with the target spacing, elapsed time over the average spacing
    added to the median height, and the rounding [((h + 5) / 10) * 10]. *)
Theorem C5_estimate_is_rounded_spec
    (nMedianTimeSpan now height tipmediantime heightLastCheckpoint
     timeLastCheckpoint genesisTime targetSpacing : Z) :
  let result :=
    NetHeight.EstimateNetHeightInner nMedianTimeSpan now height tipmediantime
      heightLastCheckpoint timeLastCheckpoint genesisTime targetSpacing in
  let medianHeight := NetHeight.spec_medianHeight nMedianTimeSpan height in
  let estimatedHeight :=
    NetHeight.spec_estimatedHeight medianHeight now tipmediantime
      (NetHeight.spec_averageSpacing targetSpacing
         (NetHeight.spec_checkpointSpacing medianHeight tipmediantime
            heightLastCheckpoint timeLastCheckpoint genesisTime)) in
  (10 | result) /\
  (1 <= nMedianTimeSpan < 2 ^ 31 -> is_int height ->
   0 <= heightLastCheckpoint < 2 ^ 31 ->
   0 <= now < 2 ^ 63 -> 0 <= tipmediantime < 2 ^ 63 ->
   0 <= timeLastCheckpoint < 2 ^ 63 -> 0 <= genesisTime < 2 ^ 63 ->
   CDouble.to_int estimatedHeight + 5 <= INT_MAX ->
   result
   = NetHeight.spec_estimateNetworkHeight nMedianTimeSpan now height
       tipmediantime heightLastCheckpoint timeLastCheckpoint genesisTime
       targetSpacing /\
   result = Z.quot (CDouble.to_int estimatedHeight + 5) 10 * 10).
Proof.
  cbv zeta. split.
  - destruct (estimate_rounds nMedianTimeSpan now height tipmediantime
                heightLastCheckpoint timeLastCheckpoint genesisTime
                targetSpacing) as (x & _ & ->).
    exists (Z.quot x 10). reflexivity.
  - intros S H C N T L G R.
    assert (E : NetHeight.EstimateNetHeightInner nMedianTimeSpan now height
                  tipmediantime heightLastCheckpoint timeLastCheckpoint
                  genesisTime targetSpacing
                = NetHeight.spec_estimateNetworkHeight nMedianTimeSpan now
                    height tipmediantime heightLastCheckpoint
                    timeLastCheckpoint genesisTime targetSpacing).
    { unfold NetHeight.EstimateNetHeightInner,
        NetHeight.EstimateNetHeightInner_div,
        NetHeight.spec_estimateNetworkHeight.
      rewrite !fst_bind.
      rewrite checkpointSpacing_spec
        by (try apply medianHeight_is_int; assumption).
      rewrite medianHeight_spec by assumption.
      cbn [fst NetHeight.ret NetHeight.int_div NetHeight.double_div
             NetHeight.averageSpacing_of NetHeight.double_div_int].
      rewrite (to_int64_id (now - tipmediantime)) by in_range.
      fold (NetHeight.spec_averageSpacing targetSpacing
              (NetHeight.spec_checkpointSpacing
                 (NetHeight.spec_medianHeight nMedianTimeSpan height)
                 tipmediantime heightLastCheckpoint timeLastCheckpoint
                 genesisTime)).
      fold (NetHeight.spec_estimatedHeight
              (NetHeight.spec_medianHeight nMedianTimeSpan height) now
              tipmediantime
              (NetHeight.spec_averageSpacing targetSpacing
                 (NetHeight.spec_checkpointSpacing
                    (NetHeight.spec_medianHeight nMedianTimeSpan height)
                    tipmediantime heightLastCheckpoint timeLastCheckpoint
                    genesisTime))).
      pose proof (CDouble_to_int_is_int
                    (NetHeight.spec_estimatedHeight
                       (NetHeight.spec_medianHeight nMedianTimeSpan height) now
                       tipmediantime
                       (NetHeight.spec_averageSpacing targetSpacing
                          (NetHeight.spec_checkpointSpacing
                             (NetHeight.spec_medianHeight nMedianTimeSpan height)
                             tipmediantime heightLastCheckpoint
                             timeLastCheckpoint genesisTime)))) as I.
      unfold is_int, INT_MAX in *.
      rewrite (to_int_id (_ + 5)) by in_range.
      rewrite round_int by in_range.
      reflexivity. }
    split; [exact E | rewrite E; reflexivity].
Qed.

Lemma C5_estimate_is_rounded_spec_witness :
  NetHeight.spec_medianHeight 11 100 = 94 /\
  NetHeight.averageSpacing 11 100 1000000 50 993400 0 150 = 150%float /\
  NetHeight.EstimateNetHeightInner 11 1000300 100 1000000 50 993400 0 150
  = Z.quot (94 + 2 + 5) 10 * 10.
Proof.
  split; [reflexivity |]. split; [vm_compute; reflexivity |].
  destruct (C5_estimate_is_rounded_spec 11 1000300 100 1000000 50 993400 0 150)
    as [_ E].
  destruct E as [_ E]; try lia; try (unfold is_int; lia).
  - vm_compute. discriminate.
  - rewrite E. vm_compute. reflexivity.
Defined.

(** *** Divisions *)

Lemma medianHeight_divisors (span height : Z) :
  snd (NetHeight.medianHeight_of span height) = [NetHeight.DivInt 2].
Proof.
  unfold NetHeight.medianHeight_of. destruct (span <? height); reflexivity.
Qed.

Lemma checkpointSpacing_divisors (median tip hLC tLC gen : Z) :
  snd (NetHeight.checkpointSpacing_of median tip hLC tLC gen)
  = [NetHeight.DivInt (if hLC <? median then to_int (median - hLC) else hLC)].
Proof.
  unfold NetHeight.checkpointSpacing_of. destruct (hLC <? median); reflexivity.
Qed.

(** The divisors of a call, in order: the constant 2 of the median height,
    the checkpoint distance or the checkpoint height, the constant 2 of the
    average, the average spacing, and the constant 10 of the rounding. *)
Lemma divisors_eq (span now height tip hLC tLC gen target : Z) :
  NetHeight.divisors span now height tip hLC tLC gen target
  = [NetHeight.DivInt 2;
     NetHeight.DivInt
       (if hLC <? fst (NetHeight.medianHeight_of span height)
        then to_int (fst (NetHeight.medianHeight_of span height) - hLC)
        else hLC);
     NetHeight.DivInt 2;
     NetHeight.DivDouble
       (NetHeight.averageSpacing span height tip hLC tLC gen target);
     NetHeight.DivInt 10].
Proof.
  unfold NetHeight.divisors, NetHeight.EstimateNetHeightInner_div.
  rewrite !snd_bind, medianHeight_divisors, checkpointSpacing_divisors.
  reflexivity.
Qed.

(** C9. Under the precondition (the checkpoint height is an [int] that is at
    least 1, and the average spacing is not zero) no division of
    [EstimateNetHeightInner] has a zero divisor. The function has no guard of
    its own: whenever the median height does not exceed the checkpoint height
    it divides by the checkpoint height as it was passed, zero included. *)
Theorem C9_no_zero_divisor_under_precondition
    (nMedianTimeSpan now height tipmediantime heightLastCheckpoint
     timeLastCheckpoint genesisTime targetSpacing : Z) :
  let divisors :=
    NetHeight.divisors nMedianTimeSpan now height tipmediantime
      heightLastCheckpoint timeLastCheckpoint genesisTime targetSpacing in
  (1 <= heightLastCheckpoint < 2 ^ 31 ->
   is_zero (NetHeight.averageSpacing nMedianTimeSpan height tipmediantime
              heightLastCheckpoint timeLastCheckpoint genesisTime
              targetSpacing) = false ->
   Forall (fun d => NetHeight.divisor_nonzero d = true) divisors) /\
  (fst (NetHeight.medianHeight_of nMedianTimeSpan height)
   <= heightLastCheckpoint ->
   In (NetHeight.DivInt heightLastCheckpoint) divisors).
Proof.
  cbv zeta. rewrite divisors_eq.
  pose proof (medianHeight_is_int nMedianTimeSpan height) as M.
  unfold is_int in M. split.
  - intros C A. repeat constructor.
    + destruct (Z.ltb_spec heightLastCheckpoint
                  (fst (NetHeight.medianHeight_of nMedianTimeSpan height)));
        simpl; apply negb_true_iff, Z.eqb_neq; [| lia].
      rewrite to_int_id by in_range. lia.
    + simpl. rewrite A. reflexivity.
  - intros L.
    destruct (Z.ltb_spec heightLastCheckpoint
                (fst (NetHeight.medianHeight_of nMedianTimeSpan height)));
      [lia |]. right. left. reflexivity.
Qed.

(** With the checkpoint 50 below the median height of 94 the divisors are
    2, 44, 2, the average spacing 150 and 10; with a checkpoint height of 0
    on an empty chain the function divides by that 0. *)
Lemma C9_no_zero_divisor_under_precondition_witness :
  NetHeight.divisors 11 1000300 100 1000000 50 993400 0 150
  = [NetHeight.DivInt 2; NetHeight.DivInt 44; NetHeight.DivInt 2;
     NetHeight.DivDouble 150; NetHeight.DivInt 10] /\
  Forall (fun d => NetHeight.divisor_nonzero d = true)
    (NetHeight.divisors 11 1000300 100 1000000 50 993400 0 150) /\
  In (NetHeight.DivInt 0) (NetHeight.divisors 11 1000300 (-1) 1000000 0 5 5 150).
Proof.
  split; [vm_compute; reflexivity |]. split.
  - apply (C9_no_zero_divisor_under_precondition
             11 1000300 100 1000000 50 993400 0 150); [lia |].
    vm_compute. reflexivity.
  - apply (C9_no_zero_divisor_under_precondition
             11 1000300 (-1) 1000000 0 5 5 150).
    vm_compute. discriminate.
Defined.

(** ** Mined blocks *)

Lemma update_orphans_list (c : Ledger.chain) (u : list Z) (acc : Ledger.amounts) :
  fst (Ledger.update_orphans c u acc) = List.filter (Ledger.on_best_chain c) u.
Proof.
  revert acc. induction u as [| hash rest IH]; intros acc; [reflexivity |].
  simpl. unfold Ledger.on_best_chain.
  destruct (Ledger.mapBlockIndex c !! hash) as [pindex |]; [| apply IH].
  destruct (Ledger.chainActive_Contains c pindex); [| apply IH].
  simpl. f_equal. apply IH.
Qed.

(** On a well-formed chain view the test
    [std::max(0, COINBASE_MATURITY - (tipHeight - height)) > 0] says that the
    depth is below the maturity threshold. *)
Lemma immature_test (c : Ledger.chain) (hash : Z) (pindex : Ledger.CBlockIndex) :
  Ledger.well_formed c ->
  Ledger.mapBlockIndex c !! hash = Some pindex ->
  Ledger.chainActive_Contains c pindex = true ->
  (0 <? Z.max 0 (to_int (Ledger.COINBASE_MATURITY c
                         - to_int (Ledger.chainActive_Height c
                                   - Ledger.nHeight pindex))))
  = Ledger.below_maturity c hash.
Proof.
  intros (M & T & H & _) L C. specialize (H hash pindex L C).
  unfold Ledger.below_maturity, Ledger.height_of. rewrite L.
  rewrite (to_int_id (_ - Ledger.nHeight pindex)) by in_range.
  rewrite to_int_id by in_range.
  destruct (Z.ltb_spec (Ledger.chainActive_Height c - Ledger.nHeight pindex)
              (Ledger.COINBASE_MATURITY c));
    destruct (Z.ltb_spec 0 (Z.max 0 (Ledger.COINBASE_MATURITY c
                - (Ledger.chainActive_Height c - Ledger.nHeight pindex))));
    lia.
Qed.

Lemma update_orphans_drop (c : Ledger.chain) (hash : Z) (rest : list Z)
    (acc : Ledger.amounts) :
  Ledger.on_best_chain c hash = false ->
  Ledger.update_orphans c (hash :: rest) acc = Ledger.update_orphans c rest acc.
Proof.
  unfold Ledger.on_best_chain. intros B. simpl.
  destruct (Ledger.mapBlockIndex c !! hash) as [pindex |]; [| reflexivity].
  rewrite B. reflexivity.
Qed.

Lemma update_orphans_keep (c : Ledger.chain) (hash : Z) (rest : list Z)
    (acc : Ledger.amounts) :
  Ledger.well_formed c ->
  Ledger.on_best_chain c hash = true ->
  let acc' :=
    if Ledger.below_maturity c hash
    then Ledger.mk_amounts
           (to_int64 (Ledger.immature acc + Ledger.subsidy_of c hash))
           (Ledger.mature acc)
    else Ledger.mk_amounts
           (Ledger.immature acc)
           (to_int64 (Ledger.mature acc + Ledger.subsidy_of c hash)) in
  Ledger.update_orphans c (hash :: rest) acc
  = (hash :: fst (Ledger.update_orphans c rest acc'),
     snd (Ledger.update_orphans c rest acc')).
Proof.
  unfold Ledger.on_best_chain. intros W B. simpl.
  destruct (Ledger.mapBlockIndex c !! hash) as [pindex |] eqn:L;
    [| discriminate].
  rewrite B, (immature_test c hash pindex W L B).
  unfold Ledger.subsidy_of, Ledger.height_of. rewrite L. reflexivity.
Qed.

Lemma update_orphans_amounts (c : Ledger.chain) (u : list Z) :
  Ledger.well_formed c ->
  forall acc, is_int64 (Ledger.immature acc) -> is_int64 (Ledger.mature acc) ->
  let kept := List.filter (Ledger.on_best_chain c) u in
  Ledger.immature (snd (Ledger.update_orphans c u acc))
  = to_int64 (Ledger.immature acc
              + Ledger.sum_subsidies c
                  (List.filter (Ledger.below_maturity c) kept)) /\
  Ledger.mature (snd (Ledger.update_orphans c u acc))
  = to_int64 (Ledger.mature acc
              + Ledger.sum_subsidies c
                  (List.filter (fun hash => negb (Ledger.below_maturity c hash))
                     kept)).
Proof.
  intros W. cbv zeta. induction u as [| hash rest IH]; intros acc Hi Hm.
  - simpl. rewrite !Z.add_0_r, !to_int64_id by assumption. auto.
  - cbn [List.filter]. destruct (Ledger.on_best_chain c hash) eqn:B.
    + rewrite (update_orphans_keep c hash rest acc W B). cbv zeta.
      cbn [snd List.filter].
      destruct (Ledger.below_maturity c hash); cbn [negb];
        match goal with
        | |- context [Ledger.update_orphans c rest ?a] =>
            destruct (IH a) as [Ei Em];
            [ cbn [Ledger.immature Ledger.mature];
              first [assumption | apply to_int64_is_int64] ..
            | rewrite Ei, Em;
              cbn [Ledger.immature Ledger.mature Ledger.sum_subsidies foldr] ]
        end.
      * rewrite to_int64_add_l, Z.add_assoc. auto.
      * rewrite to_int64_add_l, Z.add_assoc. auto.
    + rewrite (update_orphans_drop c hash rest acc B). apply IH; assumption.
Qed.

Lemma orphaned_of_eq (mined : Z) (size : nat) :
  Ledger.orphaned_of mined size = to_int (mined - Z.of_nat size).
Proof.
  unfold Ledger.orphaned_of, to_int, to_uint64, CInt.unsigned.
  apply signed_congr; [lia |].
  rewrite Z.mod_mod_divide by (exists (2 ^ 32); reflexivity).
  rewrite <- Zminus_mod_idemp_l.
  rewrite Z.mod_mod_divide by (exists (2 ^ 32); reflexivity).
  rewrite Zminus_mod_idemp_l. reflexivity.
Qed.

Lemma reconcile_orphaned (c : Ledger.chain) (s : Ledger.t) :
  Ledger.orphaned (snd (Ledger.reconcile c s))
  = to_int (AtomicCounter.get (Ledger.minedBlocks s)
            - Z.of_nat (length (Ledger.trackedBlocks (fst (Ledger.reconcile c s))))).
Proof.
  unfold Ledger.reconcile. cbn [fst snd Ledger.orphaned Ledger.trackedBlocks].
  rewrite orphaned_of_eq. unfold to_int. apply signed_congr; [lia |].
  rewrite <- Zminus_mod_idemp_l, signed_mod, Zminus_mod_idemp_l by lia.
  reflexivity.
Qed.

Lemma reconcile_tracked (c : Ledger.chain) (s : Ledger.t) :
  Ledger.trackedBlocks (fst (Ledger.reconcile c s))
  = List.filter (Ledger.on_best_chain c) (Ledger.trackedBlocks s).
Proof. apply update_orphans_list. Qed.

(** C2. One reconciliation pass over a well-formed chain view keeps exactly
    the tracked blocks that are in the index and on the active chain, adds
    the subsidy of each kept block to the immature total when its depth
    [tipHeight - height] is below [COINBASE_MATURITY] and to the mature total
    otherwise, and erases all other blocks. For a list [A; B; C] with A on the
    chain deeper than the threshold, B on the chain above it and C unknown to
    the index, the list becomes [A; B], the mature total is A's subsidy, the
    immature total is B's, and the orphan count is one more than the same
    report gives for the list before the pass. An erased block does not come
    back in a later pass, whatever the chain is then. *)
Theorem C2_reconciliation_pass (c : Ledger.chain) (s : Ledger.t) :
  Ledger.well_formed c ->
  let r := Ledger.reconcile c s in
  let kept := List.filter (Ledger.on_best_chain c) (Ledger.trackedBlocks s) in
  Ledger.trackedBlocks (fst r) = kept /\
  Ledger.immature_total (snd r)
  = to_int64 (Ledger.sum_subsidies c
                (List.filter (Ledger.below_maturity c) kept)) /\
  Ledger.mature_total (snd r)
  = to_int64 (Ledger.sum_subsidies c
                (List.filter (fun hash => negb (Ledger.below_maturity c hash))
                   kept)) /\
  (forall c' hash,
     In hash (Ledger.trackedBlocks (fst (Ledger.reconcile c' (fst r)))) ->
     In hash kept) /\
  (forall A B C : Z,
     Ledger.trackedBlocks s = [A; B; C] ->
     Ledger.on_best_chain c A = true ->
     Ledger.COINBASE_MATURITY c
       < Ledger.chainActive_Height c - Ledger.height_of c A ->
     Ledger.on_best_chain c B = true ->
     Ledger.chainActive_Height c - Ledger.height_of c B
       < Ledger.COINBASE_MATURITY c ->
     Ledger.mapBlockIndex c !! C = None ->
     AtomicCounter.get (Ledger.minedBlocks s) <= INT_MAX ->
     Ledger.trackedBlocks (fst r) = [A; B] /\
     Ledger.mature_total (snd r) = Ledger.subsidy_of c A /\
     Ledger.immature_total (snd r) = Ledger.subsidy_of c B /\
     Ledger.orphaned (snd r)
     = Ledger.orphaned_of (Ledger.mined (snd r))
         (length (Ledger.trackedBlocks s)) + 1).
Proof.
  intros W. cbv zeta.
  destruct (update_orphans_amounts c (Ledger.trackedBlocks s) W
              (Ledger.mk_amounts 0 0)) as [Ei Em];
    [unfold is_int64; simpl; lia .. |].
  cbn [Ledger.immature Ledger.mature] in Ei, Em. rewrite Z.add_0_l in Ei, Em.
  assert (Hi : Ledger.immature_total (snd (Ledger.reconcile c s))
               = Ledger.immature
                   (snd (Ledger.update_orphans c (Ledger.trackedBlocks s)
                           (Ledger.mk_amounts 0 0)))) by reflexivity.
  assert (Hm : Ledger.mature_total (snd (Ledger.reconcile c s))
               = Ledger.mature
                   (snd (Ledger.update_orphans c (Ledger.trackedBlocks s)
                           (Ledger.mk_amounts 0 0)))) by reflexivity.
  rewrite Hi, Hm, Ei, Em. clear Hi Hm Ei Em.
  split; [apply reconcile_tracked |]. split; [reflexivity |].
  split; [reflexivity |]. split.
  { intros c' hash H. rewrite reconcile_tracked in H.
    apply filter_In in H as [H _]. rewrite reconcile_tracked in H. exact H. }
  rewrite reconcile_tracked.
  intros A B C E OA DA OB DB NC G.
  assert (OC : Ledger.on_best_chain c C = false)
    by (unfold Ledger.on_best_chain; rewrite NC; reflexivity).
  assert (BA : Ledger.below_maturity c A = false)
    by (apply Z.ltb_ge; lia).
  assert (BB : Ledger.below_maturity c B = true)
    by (apply Z.ltb_lt; lia).
  destruct W as (_ & _ & _ & WS).
  rewrite reconcile_orphaned, reconcile_tracked, E.
  cbn [List.filter]. rewrite OA, OB, OC. cbn [List.filter].
  rewrite BA, BB. cbn [negb Ledger.sum_subsidies foldr length].
  rewrite !Z.add_0_r, !to_int64_id by apply WS.
  split; [reflexivity |]. split; [reflexivity |]. split; [reflexivity |].
  rewrite orphaned_of_eq.
  assert (0 <= AtomicCounter.get (Ledger.minedBlocks s))
    by apply N2Z.is_nonneg.
  unfold INT_MAX in G. unfold Ledger.reconcile. cbn [snd Ledger.mined].
  rewrite (to_int_id (AtomicCounter.get _)) by in_range.
  rewrite !to_int_id by in_range. lia.
Qed.

Lemma example_chain_well_formed : Ledger.well_formed Ledger.example_chain.
Proof.
  unfold Ledger.well_formed, Ledger.example_chain. simpl.
  split; [lia |]. split; [lia |]. split; [| intros _; unfold is_int64; lia].
  intros hash pindex L _.
  apply lookup_insert_Some in L as [[_ <-] | [_ L]]; [simpl; lia |].
  apply lookup_insert_Some in L as [[_ <-] | [_ L]]; [simpl; lia |].
  rewrite lookup_empty in L. discriminate.
Qed.

Lemma C2_reconciliation_pass_witness :
  let s := Ledger.mk 3%N [1; 2; 3] in
  let r := Ledger.reconcile Ledger.example_chain s in
  Ledger.well_formed Ledger.example_chain /\
  Ledger.trackedBlocks (fst r) = [1; 2] /\
  Ledger.mature_total (snd r) = 1250000000 /\
  Ledger.immature_total (snd r) = 1250000000 /\
  Ledger.orphaned (snd r) = 0 + 1.
Proof.
  cbv zeta. split; [exact example_chain_well_formed |].
  destruct (C2_reconciliation_pass Ledger.example_chain
              (Ledger.mk 3%N [1; 2; 3]) example_chain_well_formed)
    as (_ & _ & _ & _ & P).
  destruct (P 1 2 3) as (Hl & Hm & Hi & Ho);
    try reflexivity; try (vm_compute; congruence).
  split; [exact Hl |]. split; [exact Hm |]. split; [exact Hi |]. exact Ho.
Defined.

(** *** Reachable states of the ledger *)

Lemma TrackMinedBlock_counter (hash : Z) (s : Ledger.t) :
  AtomicCounter.get (Ledger.minedBlocks (Ledger.TrackMinedBlock hash s))
  = AtomicCounter.get (Ledger.minedBlocks s) + 1.
Proof.
  unfold Ledger.TrackMinedBlock, AtomicCounter.get, AtomicCounter.increment.
  simpl. lia.
Qed.

Lemma printMetrics_counter (mining loaded : bool) (c : Ledger.chain)
    (s : Ledger.t) :
  Ledger.minedBlocks (Ledger.printMetrics mining loaded c s)
  = Ledger.minedBlocks s.
Proof. unfold Ledger.printMetrics. destruct (mining && loaded); reflexivity. Qed.

Lemma printMetrics_shrinks (mining loaded : bool) (c : Ledger.chain)
    (s : Ledger.t) :
  (length (Ledger.trackedBlocks (Ledger.printMetrics mining loaded c s))
   <= length (Ledger.trackedBlocks s))%nat.
Proof.
  unfold Ledger.printMetrics. destruct (mining && loaded); [| lia].
  rewrite reconcile_tracked. apply filter_length_le.
Qed.

Lemma step_counter_covers_list (s : Ledger.t) (ev : Ledger.event) :
  Ledger.counter_covers_list s -> Ledger.counter_covers_list (Ledger.step s ev).
Proof.
  unfold Ledger.counter_covers_list. intros H. destruct ev as [hash | mining loaded c].
  - cbn [Ledger.step]. rewrite TrackMinedBlock_counter.
    unfold Ledger.TrackMinedBlock. cbn [Ledger.trackedBlocks].
    rewrite length_app. simpl. lia.
  - cbn [Ledger.step]. rewrite printMetrics_counter.
    pose proof (printMetrics_shrinks mining loaded c s). lia.
Qed.

Lemma run_counter_covers_list (trace : list Ledger.event) (s : Ledger.t) :
  Ledger.counter_covers_list s -> Ledger.counter_covers_list (Ledger.run s trace).
Proof.
  revert s. induction trace as [| ev trace IH]; intros s H; [exact H |].
  apply IH, step_counter_covers_list, H.
Qed.

Lemma run_counter_added (trace : list Ledger.event) (s : Ledger.t) :
  AtomicCounter.get (Ledger.minedBlocks (Ledger.run s trace))
  = AtomicCounter.get (Ledger.minedBlocks s) + Z.of_nat (Ledger.added trace).
Proof.
  revert s. induction trace as [| ev trace IH]; intros s.
  - unfold Ledger.added. simpl. lia.
  - change (Ledger.run s (ev :: trace))
      with (Ledger.run (Ledger.step s ev) trace).
    rewrite IH. unfold Ledger.added. destruct ev as [hash | mining loaded c].
    + cbn [Ledger.step List.filter length]. rewrite TrackMinedBlock_counter. lia.
    + cbn [Ledger.step List.filter]. rewrite printMetrics_counter. lia.
Qed.

(** C7. After a pass over a ledger reached from the empty one, the reported
    orphan count is the lifetime counter [minedBlocks] (the number of blocks
    ever recorded, which the pass does not touch) minus the size of the list
    the pass leaves, as an [int], and exactly so whenever the difference fits
    one. The list has lost only the blocks that are not on the active chain:
    a confirmed block stays, whatever its maturity. *)
Theorem C7_orphaned_is_counter_minus_list
    (trace : list Ledger.event) (c : Ledger.chain) :
  let s := Ledger.run Ledger.init trace in
  let r := Ledger.reconcile c s in
  let counter := AtomicCounter.get (Ledger.minedBlocks s) in
  let size := Z.of_nat (length (Ledger.trackedBlocks (fst r))) in
  counter = Z.of_nat (Ledger.added trace) /\
  Ledger.minedBlocks (fst r) = Ledger.minedBlocks s /\
  Ledger.orphaned (snd r) = to_int (counter - size) /\
  (is_int (counter - size) -> Ledger.orphaned (snd r) = counter - size) /\
  (is_int counter -> Ledger.mined (snd r) = counter) /\
  (forall hash,
     In hash (Ledger.trackedBlocks (fst r)) <->
     In hash (Ledger.trackedBlocks s) /\ Ledger.on_best_chain c hash = true).
Proof.
  cbv zeta. split; [apply (run_counter_added trace Ledger.init) |].
  split; [reflexivity |].
  split; [apply reconcile_orphaned |].
  split; [intros R; rewrite reconcile_orphaned; apply to_int_id, R |].
  split; [intros R; apply to_int_id, R |].
  intros hash. rewrite reconcile_tracked. apply filter_In.
Qed.

(** Four blocks recorded, the second of them unknown to the chain: a pass
    leaves three and reports one orphan. *)
Lemma C7_orphaned_is_counter_minus_list_witness :
  let trace := [Ledger.Track 1; Ledger.Track 3; Ledger.Track 2; Ledger.Track 2] in
  let r := Ledger.reconcile Ledger.example_chain
             (Ledger.run Ledger.init trace) in
  Ledger.trackedBlocks (fst r) = [1; 2; 2] /\
  Ledger.mined (snd r) = 4 /\
  Ledger.orphaned (snd r) = 4 - 3.
Proof.
  cbv zeta. split; [reflexivity |]. split; [reflexivity |].
  destruct (C7_orphaned_is_counter_minus_list
              [Ledger.Track 1; Ledger.Track 3; Ledger.Track 2; Ledger.Track 2]
              Ledger.example_chain) as (_ & _ & _ & E & _).
  apply E. vm_compute. split; congruence.
Defined.

(** C10. In every state reached from the empty ledger by recording mined
    blocks and rendering, the counter [minedBlocks] is at least the size of
    [trackedBlocks], so the orphan count of a report is not negative (as long
    as the counter fits the [int] it is read into). A step never lowers the
    counter: [TrackMinedBlock] raises it by one and appends one block, a
    render leaves it alone and can only shorten the list. *)
Theorem C10_counter_covers_tracked_list (trace : list Ledger.event) :
  let s := Ledger.run Ledger.init trace in
  Z.of_nat (length (Ledger.trackedBlocks s))
  <= AtomicCounter.get (Ledger.minedBlocks s) /\
  (forall c, AtomicCounter.get (Ledger.minedBlocks s) <= INT_MAX ->
     0 <= Ledger.orphaned (snd (Ledger.reconcile c s))) /\
  (forall ev,
     AtomicCounter.get (Ledger.minedBlocks s)
     <= AtomicCounter.get (Ledger.minedBlocks (Ledger.step s ev))) /\
  (forall hash,
     AtomicCounter.get (Ledger.minedBlocks (Ledger.TrackMinedBlock hash s))
     = AtomicCounter.get (Ledger.minedBlocks s) + 1 /\
     Ledger.trackedBlocks (Ledger.TrackMinedBlock hash s)
     = Ledger.trackedBlocks s ++ [hash]) /\
  (forall mining loaded c,
     Ledger.minedBlocks (Ledger.printMetrics mining loaded c s)
     = Ledger.minedBlocks s /\
     (length (Ledger.trackedBlocks (Ledger.printMetrics mining loaded c s))
      <= length (Ledger.trackedBlocks s))%nat).
Proof.
  cbv zeta.
  assert (I : Ledger.counter_covers_list (Ledger.run Ledger.init trace)).
  { apply run_counter_covers_list. unfold Ledger.counter_covers_list. simpl. lia. }
  unfold Ledger.counter_covers_list in I.
  split; [exact I |]. split; [| split; [| split]].
  - intros c G. rewrite reconcile_orphaned, reconcile_tracked.
    pose proof (filter_length_le (Ledger.on_best_chain c)
                  (Ledger.trackedBlocks (Ledger.run Ledger.init trace))).
    unfold INT_MAX in G. rewrite to_int_id by in_range. lia.
  - intros [hash | mining loaded c]; cbn [Ledger.step].
    + rewrite TrackMinedBlock_counter. lia.
    + rewrite printMetrics_counter. lia.
  - intros hash. split; [apply TrackMinedBlock_counter | reflexivity].
  - intros mining loaded c.
    split; [apply printMetrics_counter | apply printMetrics_shrinks].
Qed.

(** Three blocks mined, one of them orphaned at the first render, a fourth
    mined afterwards: the counter is 4, the list holds 3 blocks. *)
Lemma C10_counter_covers_tracked_list_witness :
  let trace := [Ledger.Track 1; Ledger.Track 3; Ledger.Track 2;
                Ledger.Render true true Ledger.example_chain;
                Ledger.Track 2] in
  let s := Ledger.run Ledger.init trace in
  Ledger.trackedBlocks s = [1; 2; 2] /\
  AtomicCounter.get (Ledger.minedBlocks s) = 4 /\
  0 <= Ledger.orphaned (snd (Ledger.reconcile Ledger.example_chain s)).
Proof.
  cbv zeta. split; [reflexivity |]. split; [reflexivity |].
  apply (C10_counter_covers_tracked_list
           [Ledger.Track 1; Ledger.Track 3; Ledger.Track 2;
            Ledger.Render true true Ledger.example_chain; Ledger.Track 2]).
  vm_compute. discriminate.
Defined.

(** ** Further properties *)

(** [TriggerRefresh] ends the scheduler's wait: once it has stored the
    current time in [nNextRefresh], the guard [GetTime() < *nNextRefresh] of
    the wait loop is false at every later clock reading, whatever deadline
    the scheduler had set before. *)
Theorem TriggerRefresh_ends_wait (now later : Z) (s : Screen.t) :
  now <= later ->
  Screen.refresh_pending later (Screen.TriggerRefresh now s) = false /\
  Screen.messageBox (Screen.TriggerRefresh now s) = Screen.messageBox s.
Proof.
  intros H. split; [| reflexivity].
  unfold Screen.refresh_pending, Screen.TriggerRefresh. simpl.
  apply Z.ltb_ge. exact H.
Qed.

Lemma TriggerRefresh_ends_wait_witness :
  Screen.refresh_pending 1000 (Screen.mk 999999 []) = true /\
  Screen.refresh_pending 1000
    (Screen.TriggerRefresh 1000 (Screen.mk 999999 [])) = false.
Proof.
  split; [reflexivity |].
  apply (TriggerRefresh_ends_wait 1000 1000 (Screen.mk 999999 [])). lia.
Defined.

(** [start()] on a timer whose thread count can still grow: the count goes
    up by one, the clock is recorded on the transition 0 to 1 only, and the
    accumulated duration is left alone. *)
Theorem start_counts_and_records (now : Z) (tm : AtomicTimer.t) :
  0 <= AtomicTimer.threads tm < 2 ^ 64 - 1 ->
  AtomicTimer.threads (AtomicTimer.start now tm) = AtomicTimer.threads tm + 1 /\
  AtomicTimer.running (AtomicTimer.start now tm) = true /\
  AtomicTimer.total_time (AtomicTimer.start now tm) = AtomicTimer.total_time tm /\
  AtomicTimer.start_time (AtomicTimer.start now tm)
  = (if AtomicTimer.threads tm =? 0 then now else AtomicTimer.start_time tm).
Proof.
  intros H. unfold AtomicTimer.running, AtomicTimer.start. simpl.
  rewrite to_uint64_id by in_range.
  split; [reflexivity |]. split; [apply Z.ltb_lt; lia |].
  split; [reflexivity |].
  destruct (Z.ltb_spec (AtomicTimer.threads tm) 1),
           (Z.eqb_spec (AtomicTimer.threads tm) 0); try reflexivity; lia.
Qed.

Lemma start_counts_and_records_witness :
  AtomicTimer.start 100 AtomicTimer.init = AtomicTimer.mk 1 100 0 /\
  AtomicTimer.start_time (AtomicTimer.start 105 (AtomicTimer.mk 1 100 0)) = 100.
Proof.
  split; [reflexivity |].
  destruct (start_counts_and_records 105 (AtomicTimer.mk 1 100 0)) as (_ & _ & _ & E);
    [simpl; lia | exact E].
Defined.

(** Whatever is posted, the message box never holds more than five lines. *)
Theorem messageBox_never_exceeds_five
    (i : Screen.ui) (now : Z) (message caption : string) (style : Z)
    (s : Screen.t) :
  (length (Screen.messageBox s) <= 5)%nat ->
  (length (Screen.messageBox
             (fst (Screen.metrics_ThreadSafeMessageBox i now message caption
                     style s))) <= 5)%nat /\
  snd (Screen.metrics_ThreadSafeMessageBox i now message caption style s)
  = false.
Proof.
  intros H. split; [| reflexivity].
  unfold Screen.metrics_ThreadSafeMessageBox. simpl.
  apply messageBox_push_length, H.
Qed.

Lemma messageBox_never_exceeds_five_witness :
  let i := Screen.mk_ui 1 2 4 8 "Error" "Warning" "Information" in
  let full := Screen.mk 0 ["a: 1"; "b: 2"; "c: 3"; "d: 4"; "e: 5"] in
  (length (Screen.messageBox full) <= 5)%nat /\
  (length (Screen.messageBox
             (fst (Screen.metrics_ThreadSafeMessageBox i 7 "disk full" "note" 2
                     full))) <= 5)%nat /\
  (length (Screen.messageBox full ++ ["Error: disk full"]) > 5)%nat.
Proof.
  cbv zeta.
  assert (H : (length (Screen.messageBox
                         (Screen.mk 0 ["a: 1"; "b: 2"; "c: 3"; "d: 4"; "e: 5"]))
               <= 5)%nat) by (simpl; lia).
  split; [exact H |]. split; [| simpl; lia].
  apply (messageBox_never_exceeds_five
           (Screen.mk_ui 1 2 4 8 "Error" "Warning" "Information")
           7 "disk full" "note" 2
           (Screen.mk 0 ["a: 1"; "b: 2"; "c: 3"; "d: 4"; "e: 5"]) H).
Defined.

(** *** The timer along a history *)

Lemma run_reaches_invariant (trace : list (AtomicTimer.call * Z)) :
  forall (last : Z) (n : nat) (tm : AtomicTimer.t),
  AtomicTimer.invariant last n tm ->
  AtomicTimer.clock_ok last trace = true ->
  Z.of_nat (n + length trace) < 2 ^ 64 ->
  exists last',
    AtomicTimer.invariant last' (n + length trace) (AtomicTimer.run tm trace) /\
    forall more,
      AtomicTimer.clock_ok last (trace ++ more) = true ->
      AtomicTimer.clock_ok last' more = true.
Proof.
  induction trace as [| [c now] trace IH]; intros last n tm I C B.
  - exists last. rewrite Nat.add_0_r. split; [exact I | auto].
  - simpl in C. apply andb_prop in C as [C C3]. apply andb_prop in C as [C1 C2].
    apply Z.leb_le in C1. apply Z.ltb_lt in C2. simpl length in B.
    destruct (step_invariant last now n tm c I) as (I' & _); [lia | lia |].
    destruct (IH now (S n) _ I' C3) as (last' & J & K); [lia |].
    exists last'. simpl length. rewrite Nat.add_succ_r.
    split; [exact J |]. intros more M. apply K.
    simpl in M. apply andb_prop in M as [_ M]. exact M.
Qed.

(** The thread count of a timer is the number of starts of its history that
    still wait for their stop (a stop made while no thread is active is not
    counted against a later start). *)
Theorem threadCount_counts_pending (trace : list (AtomicTimer.call * Z)) :
  Z.of_nat (length trace) < 2 ^ 64 ->
  AtomicTimer.clock_ok 0 trace = true ->
  AtomicTimer.threadCount (AtomicTimer.run AtomicTimer.init trace)
  = Z.of_nat (AtomicTimer.pending (map fst trace)) /\
  (forall k : nat,
     Z.of_nat k < AtomicTimer.threadCount (AtomicTimer.run AtomicTimer.init trace)
     <-> exists pre post, map fst trace = pre ++ post /\
           (AtomicTimer.stops post + k < AtomicTimer.starts post)%nat).
Proof.
  intros B C.
  destruct (run_reaches_invariant trace 0 0%nat AtomicTimer.init
              invariant_init C B) as (last & (_ & T & _) & _).
  pose proof (run_invariant trace 0 0%nat AtomicTimer.init invariant_init C B) as E.
  change (fold_left _ _ _) with (AtomicTimer.pending (map fst trace)) in E.
  unfold AtomicTimer.threadCount.
  assert (H : AtomicTimer.threads (AtomicTimer.run AtomicTimer.init trace)
              = Z.of_nat (AtomicTimer.pending (map fst trace)))
    by (rewrite <- E; lia).
  split; [exact H |]. intros k. rewrite H, <- pending_exceeds. lia.
Qed.

Lemma threadCount_counts_pending_witness :
  AtomicTimer.threadCount
    (AtomicTimer.run AtomicTimer.init
       [(AtomicTimer.Stop, 5); (AtomicTimer.Start, 10); (AtomicTimer.Start, 11);
        (AtomicTimer.Start, 12); (AtomicTimer.Stop, 20)]) = 2.
Proof.
  apply (threadCount_counts_pending
           [(AtomicTimer.Stop, 5); (AtomicTimer.Start, 10);
            (AtomicTimer.Start, 11); (AtomicTimer.Start, 12);
            (AtomicTimer.Stop, 20)]); [simpl; lia | reflexivity].
Defined.

(** On a timer reached by a history of calls, read at a time not before the
    last call, the duration of [rate] is computed without overflow, lies
    between 0 and the clock reading, and [GetLocalSolPS] is the counter
    divided by it when it is positive and 0 otherwise. *)
Theorem GetLocalSolPS_on_reachable_timer
    (trace : list (AtomicTimer.call * Z)) (now : Z) (count : AtomicCounter.t) :
  Z.of_nat (length trace) < 2 ^ 64 ->
  AtomicTimer.clock_ok 0 (trace ++ [(AtomicTimer.Stop, now)]) = true ->
  let tm := AtomicTimer.run AtomicTimer.init trace in
  0 <= AtomicTimer.spec_duration now tm <= now /\
  AtomicTimer.total_time tm <= AtomicTimer.spec_duration now tm /\
  AtomicTimer.rate_duration now tm = AtomicTimer.spec_duration now tm /\
  Stats.GetLocalSolPS now count tm
  = (if 0 <? AtomicTimer.spec_duration now tm
     then (CDouble.of_Z (AtomicCounter.get count)
           / CDouble.of_Z (AtomicTimer.spec_duration now tm))%float
     else 0%float).
Proof.
  intros B C. cbv zeta.
  assert (C0 : AtomicTimer.clock_ok 0 trace = true).
  { clear B. revert C. generalize 0. induction trace as [| [c t] trace IH];
      intros last C; [reflexivity |].
    simpl in *. apply andb_prop in C as [C C3]. rewrite C. simpl.
    apply (IH t C3). }
  destruct (run_reaches_invariant trace 0 0%nat AtomicTimer.init
              invariant_init C0 B) as (last & (L & T & A & S) & K).
  specialize (K _ C). simpl in K.
  apply andb_prop in K as [K _]. apply andb_prop in K as [K1 K2].
  apply Z.leb_le in K1. apply Z.ltb_lt in K2.
  assert (D : 0 <= AtomicTimer.spec_duration now
                     (AtomicTimer.run AtomicTimer.init trace) <= now /\
              AtomicTimer.total_time (AtomicTimer.run AtomicTimer.init trace)
              <= AtomicTimer.spec_duration now
                   (AtomicTimer.run AtomicTimer.init trace)).
  { unfold AtomicTimer.spec_duration, AtomicTimer.running.
    destruct (Z.ltb_spec 0 (AtomicTimer.threads
                              (AtomicTimer.run AtomicTimer.init trace))) as [P | P].
    - destruct (S P). lia.
    - lia. }
  destruct D as [D1 D2].
  assert (R : is_int64 (AtomicTimer.spec_duration now
                          (AtomicTimer.run AtomicTimer.init trace)))
    by (unfold is_int64; lia).
  split; [exact D1 |]. split; [exact D2 |].
  split; [apply rate_duration_spec, R |].
  unfold Stats.GetLocalSolPS, AtomicTimer.rate.
  rewrite rate_duration_spec by exact R. destruct (0 <? _); reflexivity.
Qed.

Lemma GetLocalSolPS_on_reachable_timer_witness :
  Stats.GetLocalSolPS 30 6%N
    (AtomicTimer.run AtomicTimer.init
       [(AtomicTimer.Start, 10); (AtomicTimer.Stop, 18); (AtomicTimer.Start, 26)])
  = 0.5%float.
Proof.
  destruct (GetLocalSolPS_on_reachable_timer
              [(AtomicTimer.Start, 10); (AtomicTimer.Stop, 18);
               (AtomicTimer.Start, 26)] 30 6%N) as (_ & _ & _ & E);
    [simpl; lia | reflexivity |].
  rewrite E. vm_compute. reflexivity.
Defined.

(** *** Captions *)

Lemma land_lor_cleared (style secure : Z) :
  Z.land (Z.lor style secure) (CInt.unsigned 32 (Z.lnot secure))
  = Z.land style (CInt.unsigned 32 (Z.lnot secure)).
Proof.
  apply Z.bits_inj'. intros n Hn. rewrite !Z.land_spec, Z.lor_spec.
  unfold CInt.unsigned. destruct (Z.lt_ge_cases n 32) as [L | G].
  - rewrite Z.mod_pow2_bits_low by lia. rewrite Z.lnot_spec by exact Hn.
    destruct (Z.testbit style n), (Z.testbit secure n); reflexivity.
  - rewrite Z.mod_pow2_bits_high by lia. rewrite !andb_false_r. reflexivity.
Qed.

(** The SECURE flag has no effect: a message posted with it gets the
    caption, the line and the state it gets without it, and a question is
    posted as a message whatever its interactive text is. *)
Theorem SECURE_flag_has_no_effect
    (i : Screen.ui) (now : Z) (ignored message caption : string) (style : Z)
    (s : Screen.t) :
  Screen.strCaption_of i caption (Z.lor style (Screen.SECURE i))
  = Screen.strCaption_of i caption style /\
  Screen.metrics_ThreadSafeMessageBox i now message caption
    (Z.lor style (Screen.SECURE i)) s
  = Screen.metrics_ThreadSafeMessageBox i now message caption style s /\
  Question.metrics_ThreadSafeQuestion i now ignored message caption
    (Z.lor style (Screen.SECURE i)) s
  = Screen.metrics_ThreadSafeMessageBox i now message caption style s.
Proof.
  assert (E : Screen.strCaption_of i caption (Z.lor style (Screen.SECURE i))
              = Screen.strCaption_of i caption style).
  { unfold Screen.strCaption_of. rewrite land_lor_cleared. reflexivity. }
  unfold Question.metrics_ThreadSafeQuestion,
    Screen.metrics_ThreadSafeMessageBox.
  rewrite E. auto.
Qed.

(** ** Uptime *)

Lemma fields_of_quot_rem (uptime : Z) :
  is_int uptime ->
  Uptime.fields_of uptime
  = Uptime.mk (Z.quot uptime 86400) (Z.quot (Z.rem uptime 86400) 3600)
      (Z.quot (Z.rem uptime 3600) 60) (Z.rem uptime 60).
Proof.
  unfold is_int. intros H. unfold Uptime.fields_of.
  change (24 * 60 * 60) with 86400. change (60 * 60) with 3600.
  set (d := Z.quot uptime 86400).
  set (h := Z.quot (Z.rem uptime 86400) 3600).
  set (m := Z.quot (Z.rem uptime 3600) 60).
  assert (F : - 2 ^ 31 <= d * 86400 < 2 ^ 31 /\
              uptime - d * 86400 = Z.rem uptime 86400 /\
              - 2 ^ 31 <= (d * 24 + h) * 3600 < 2 ^ 31 /\
              uptime - (d * 24 + h) * 3600 = Z.rem uptime 3600 /\
              - 2 ^ 31 <= ((d * 24 + h) * 60 + m) * 60 < 2 ^ 31 /\
              uptime - ((d * 24 + h) * 60 + m) * 60 = Z.rem uptime 60 /\
              - 2 ^ 31 <= d < 2 ^ 31 /\ - 24 < h < 24 /\ - 60 < m < 60 /\
              - 86400 < Z.rem uptime 86400 < 86400 /\
              - 3600 < Z.rem uptime 3600 < 3600 /\
              - 60 < Z.rem uptime 60 < 60).
  { subst d h m. Z.quot_rem_to_equations. lia. }
  destruct F as (F1 & E1 & F2 & E2 & F3 & E3 & Rd & Rh & Rm & R1 & R2 & R3).
  rewrite (to_int_id d) by in_range.
  replace (d * 24 * 60 * 60) with (d * 86400) by lia.
  rewrite (to_int_id (d * 86400)) by in_range.
  rewrite E1, (to_int64_id (Z.rem uptime 86400)) by in_range.
  fold h. rewrite (to_int_id h) by in_range.
  replace ((d * 24 + h) * 60 * 60) with ((d * 24 + h) * 3600) by lia.
  rewrite (to_int_id ((d * 24 + h) * 3600)) by in_range.
  rewrite E2, (to_int64_id (Z.rem uptime 3600)) by in_range.
  fold m. rewrite (to_int_id m) by in_range.
  rewrite (to_int_id (((d * 24 + h) * 60 + m) * 60)) by in_range.
  rewrite E3, (to_int64_id (Z.rem uptime 60)) by in_range.
  rewrite (to_int_id (Z.rem uptime 60)) by in_range.
  reflexivity.
Qed.

(** An uptime from 0 to [INT_MAX] seconds is split into days, hours below
    24, minutes and seconds below 60 that add up to it again; the format
    chosen leaves out leading zero fields only, so the displayed duration
    stands for exactly the uptime, and its first number is positive unless
    the uptime is under a minute. *)
Theorem uptime_display_round_trip (now nNodeStartTime : Z) :
  0 <= now - Uptime.MarkStartTime nNodeStartTime <= INT_MAX ->
  let uptime := Uptime.GetUptime now (Uptime.MarkStartTime nNodeStartTime) in
  let f := Uptime.fields_of uptime in
  uptime = now - nNodeStartTime /\
  0 <= Uptime.days f /\ 0 <= Uptime.hours f < 24 /\
  0 <= Uptime.minutes f < 60 /\ 0 <= Uptime.seconds f < 60 /\
  Uptime.shown_seconds (Uptime.duration_of f) = uptime /\
  match Uptime.duration_of f with
  | Uptime.DaysHoursMinutesSeconds d _ _ _ => 0 < d
  | Uptime.HoursMinutesSeconds h _ _ => 0 < h
  | Uptime.MinutesSeconds m _ => 0 < m
  | Uptime.Seconds s => uptime < 60
  end.
Proof.
  unfold Uptime.MarkStartTime, Uptime.GetUptime, INT_MAX. intros H. cbv zeta.
  rewrite to_int64_id by in_range.
  set (u := now - nNodeStartTime) in *.
  rewrite fields_of_quot_rem by in_range.
  unfold Uptime.duration_of. cbn [Uptime.days Uptime.hours Uptime.minutes
                                    Uptime.seconds].
  assert (F : 0 <= Z.quot u 86400 /\
              0 <= Z.quot (Z.rem u 86400) 3600 < 24 /\
              0 <= Z.quot (Z.rem u 3600) 60 < 60 /\
              0 <= Z.rem u 60 < 60 /\
              ((Z.quot u 86400 * 24 + Z.quot (Z.rem u 86400) 3600) * 60
               + Z.quot (Z.rem u 3600) 60) * 60 + Z.rem u 60 = u)
    by (Z.quot_rem_to_equations; lia).
  destruct F as (Fd & Fh & Fm & Fs & E).
  split; [reflexivity |]. split; [exact Fd |]. split; [exact Fh |].
  split; [exact Fm |]. split; [exact Fs |].
  destruct (Z.ltb_spec 0 (Z.quot u 86400));
    [cbn [Uptime.shown_seconds]; lia |].
  destruct (Z.ltb_spec 0 (Z.quot (Z.rem u 86400) 3600));
    [cbn [Uptime.shown_seconds]; lia |].
  destruct (Z.ltb_spec 0 (Z.quot (Z.rem u 3600) 60));
    cbn [Uptime.shown_seconds]; lia.
Qed.

Lemma uptime_display_round_trip_witness :
  Uptime.duration_of (Uptime.fields_of (Uptime.GetUptime 1000093784 1000000000))
  = Uptime.DaysHoursMinutesSeconds 1 2 3 4 /\
  Uptime.shown_seconds
    (Uptime.duration_of (Uptime.fields_of (Uptime.GetUptime 1000093784 1000000000)))
  = 93784.
Proof.
  split; [reflexivity |].
  destruct (uptime_display_round_trip 1000093784 1000000000)
    as (E & _ & _ & _ & _ & R & _); [unfold Uptime.MarkStartTime; in_range |].
  exact (eq_trans R E).
Defined.

(** A negative uptime (the node's start time lies after the clock reading)
    takes the seconds-only format and shows the remainder of the division by
    60, a number from -59 to 0: what is displayed is the uptime only when
    that is above minus one minute. *)
Theorem negative_uptime_shows_remainder (uptime : Z) :
  is_int uptime -> uptime < 0 ->
  Uptime.duration_of (Uptime.fields_of uptime) = Uptime.Seconds (Z.rem uptime 60) /\
  -60 < Z.rem uptime 60 <= 0 /\
  (Uptime.shown_seconds (Uptime.duration_of (Uptime.fields_of uptime)) = uptime
   <-> -60 < uptime).
Proof.
  intros I N. rewrite fields_of_quot_rem by exact I. unfold is_int in I.
  unfold Uptime.duration_of. cbn [Uptime.days Uptime.hours Uptime.minutes
                                    Uptime.seconds].
  assert (F : Z.quot uptime 86400 <= 0 /\
              Z.quot (Z.rem uptime 86400) 3600 <= 0 /\
              Z.quot (Z.rem uptime 3600) 60 <= 0 /\
              -60 < Z.rem uptime 60 <= 0 /\
              (Z.rem uptime 60 = uptime <-> -60 < uptime))
    by (Z.quot_rem_to_equations; lia).
  destruct F as (Fd & Fh & Fm & Fs & E).
  destruct (Z.ltb_spec 0 (Z.quot uptime 86400)); [lia |].
  destruct (Z.ltb_spec 0 (Z.quot (Z.rem uptime 86400) 3600)); [lia |].
  destruct (Z.ltb_spec 0 (Z.quot (Z.rem uptime 3600) 60)); [lia |].
  auto.
Qed.

Lemma negative_uptime_shows_remainder_witness :
  Uptime.duration_of (Uptime.fields_of (Uptime.GetUptime 1000000000 1000003700))
  = Uptime.Seconds (-40).
Proof.
  destruct (negative_uptime_shows_remainder (-3700)) as [E _];
    [in_range | lia |].
  exact E.
Defined.

(** The width handed to [printMetrics] is never zero (80, or a non-zero
    [ws_col]), so the division [strDuration.size() / cols] has a non-zero
    divisor, and the line count is 3 plus the wrapped lines of the uptime
    text, plus one line for the solver runs and two for the mined blocks when
    they are shown. *)
Theorem printMetrics_width_is_not_zero
    (isTTY : bool) (ioctl_result ws_col strDuration_size : Z)
    (mining loaded : bool) (c : Ledger.chain) (s : Ledger.t) :
  0 <= ws_col < 2 ^ 16 ->
  0 <= strDuration_size < 2 ^ 31 - 6 ->
  let cols := Uptime.window_cols isTTY ioctl_result ws_col in
  let r := Uptime.printMetrics_lines cols strDuration_size mining loaded c s in
  1 <= cols < 2 ^ 16 /\
  Forall (fun d => NetHeight.divisor_nonzero d = true) (snd r) /\
  fst r
  = 3 + strDuration_size / cols
    + (if mining && loaded
       then 1 + (if 0 <? Ledger.mined (snd (Ledger.reconcile c s)) then 2 else 0)
       else 0).
Proof.
  intros W S. cbv zeta.
  assert (C : 1 <= Uptime.window_cols isTTY ioctl_result ws_col < 2 ^ 16).
  { unfold Uptime.window_cols. destruct isTTY; [| lia].
    destruct (Z.eqb_spec ioctl_result (-1)); simpl; [lia |].
    destruct (Z.eqb_spec ws_col 0); simpl; lia. }
  set (cols := Uptime.window_cols isTTY ioctl_result ws_col) in *.
  clearbody cols. split; [exact C |]. split.
  - repeat constructor. simpl. apply negb_true_iff, Z.eqb_neq. lia.
  - unfold Uptime.printMetrics_lines. cbn [fst].
    rewrite Z.quot_div_nonneg by lia.
    assert (Q : 0 <= strDuration_size / cols <= strDuration_size).
    { split; [apply Z.div_pos; lia |].
      apply Z.div_le_upper_bound; [lia | nia]. }
    rewrite (to_uint64_id (_ / _)) by in_range.
    rewrite (to_uint64_id 3) by in_range.
    rewrite to_uint64_id by in_range.
    rewrite !(to_int_id (3 + _)) by in_range.
    destruct (mining && loaded); [| lia].
    rewrite !(to_int_id (_ + 1)) by in_range.
    destruct (0 <? _); [rewrite to_int_id by in_range |]; lia.
Qed.

Lemma printMetrics_width_is_not_zero_witness :
  Uptime.window_cols true 0 0 = 80 /\
  Uptime.window_cols true 0 132 = 132 /\
  fst (Uptime.printMetrics_lines (Uptime.window_cols true (-1) 132) 200 true true
         Ledger.example_chain (Ledger.mk 3%N [1; 2; 3])) = 3 + 2 + 1 + 2.
Proof.
  split; [reflexivity |]. split; [reflexivity |].
  destruct (printMetrics_width_is_not_zero true (-1) 132 200 true true
              Ledger.example_chain (Ledger.mk 3%N [1; 2; 3])) as (_ & _ & E);
    [lia | lia |].
  rewrite E. reflexivity.
Defined.

(** ** The estimate as a divisor *)

Lemma estimate_from_netheight (span now height tip hLC tLC gen target : Z) :
  NetHeight.EstimateNetHeightInner span now height tip hLC tLC gen target
  = to_int (to_int (Z.quot (to_int (Stats.netheight span now height tip hLC tLC
                                      gen target + 5)) 10) * 10).
Proof. reflexivity. Qed.

Lemma to_int_overflow (z : Z) :
  2 ^ 31 <= z < 2 ^ 32 -> to_int z = z - 2 ^ 32.
Proof.
  intros H. unfold to_int, CInt.signed.
  change (2 ^ (32 - 1)) with (2 ^ 31).
  replace (z + 2 ^ 31) with (z - 2 ^ 31 + 1 * 2 ^ 32) by lia.
  rewrite Z.mod_add by lia. rewrite Z.mod_small; lia.
Qed.

(** How [((n + 5) / 10) * 10] rounds an [int]: to the nearest ten from -5
    upwards, upwards (toward zero) below that, and into the negative numbers
    when [n + 5] overflows. *)
Lemma rounding_cases (n : Z) :
  is_int n ->
  let r := to_int (to_int (Z.quot (to_int (n + 5)) 10) * 10) in
  (-5 <= n <= INT_MAX - 5 -> n - 4 <= r <= n + 5) /\
  (n < -5 -> n + 5 <= r <= n + 14) /\
  (INT_MAX - 5 < n -> r < 0) /\
  (r = 0 <-> -15 < n < 5).
Proof.
  unfold is_int, INT_MAX. intros I. cbv zeta.
  destruct (Z.le_gt_cases n (2 ^ 31 - 1 - 5)) as [L | G].
  - rewrite (to_int_id (n + 5)) by in_range.
    rewrite round_int by in_range.
    assert (F : (-5 <= n -> n - 4 <= Z.quot (n + 5) 10 * 10 <= n + 5) /\
                (n < -5 -> n + 5 <= Z.quot (n + 5) 10 * 10 <= n + 14) /\
                (Z.quot (n + 5) 10 * 10 = 0 <-> -15 < n < 5))
      by (Z.quot_rem_to_equations; lia).
    destruct F as (F1 & F2 & F3).
    split; [intros; apply F1; lia |]. split; [exact F2 |].
    split; [lia | exact F3].
  - rewrite (to_int_overflow (n + 5)) by lia.
    rewrite round_int by in_range.
    assert (F : Z.quot (n + 5 - 2 ^ 32) 10 * 10 < 0)
      by (Z.quot_rem_to_equations; lia).
    split; [lia |]. split; [lia |]. split; [lia |]. lia.
Qed.

(** During the initial block download [printStats] divides [height * 100]
    by the rounded estimate, with no test of it: the divisor is 0 exactly
    when the estimate before rounding is from -14 to 4. *)
Theorem downloadPercent_divides_by_the_estimate
    (nMedianTimeSpan now height tipmediantime : Z)
    (chainParams : Stats.CChainParams) :
  let estimate :=
    Stats.EstimateNetHeight nMedianTimeSpan now height tipmediantime
      chainParams in
  let netheight :=
    Stats.netheight nMedianTimeSpan now height tipmediantime
      (Stats.TotalBlocksEstimate chainParams)
      (Stats.nTimeLastCheckpoint chainParams) (Stats.GenesisTime chainParams)
      (Stats.nPowTargetSpacing chainParams) in
  let r :=
    Stats.downloadPercent_div nMedianTimeSpan now height tipmediantime
      chainParams in
  fst r = to_int (Z.quot (to_int (height * 100)) estimate) /\
  snd r
  = NetHeight.divisors nMedianTimeSpan now height tipmediantime
      (Stats.TotalBlocksEstimate chainParams)
      (Stats.nTimeLastCheckpoint chainParams) (Stats.GenesisTime chainParams)
      (Stats.nPowTargetSpacing chainParams)
    ++ [NetHeight.DivInt estimate] /\
  (estimate = 0 <-> -15 < netheight < 5) /\
  (NetHeight.divisor_nonzero (NetHeight.DivInt estimate) = false
   <-> -15 < netheight < 5).
Proof.
  cbv zeta. split; [reflexivity |]. split; [reflexivity |].
  assert (E : Stats.EstimateNetHeight nMedianTimeSpan now height tipmediantime
                chainParams = 0
              <-> -15 < Stats.netheight nMedianTimeSpan now height tipmediantime
                          (Stats.TotalBlocksEstimate chainParams)
                          (Stats.nTimeLastCheckpoint chainParams)
                          (Stats.GenesisTime chainParams)
                          (Stats.nPowTargetSpacing chainParams) < 5).
  { unfold Stats.EstimateNetHeight, Stats.EstimateNetHeight_div.
    fold (NetHeight.EstimateNetHeightInner nMedianTimeSpan now height
            tipmediantime (Stats.TotalBlocksEstimate chainParams)
            (Stats.nTimeLastCheckpoint chainParams)
            (Stats.GenesisTime chainParams)
            (Stats.nPowTargetSpacing chainParams)).
    rewrite estimate_from_netheight.
    apply rounding_cases, CDouble_to_int_is_int. }
  split; [exact E |]. rewrite <- E. simpl.
  rewrite negb_false_iff. apply Z.eqb_eq.
Qed.

(** A node at height 0 whose tip is 100 seconds old: the estimate before
    rounding is 0, the rounded estimate is 0, and the percentage divides
    by it. *)
Lemma downloadPercent_divides_by_the_estimate_witness :
  let chainParams := Stats.mk_params 100 16000 1000 150 in
  Stats.netheight 11 1100 0 1000 100 16000 1000 150 = 0 /\
  Stats.EstimateNetHeight 11 1100 0 1000 chainParams = 0 /\
  In (NetHeight.DivInt 0)
     (snd (Stats.downloadPercent_div 11 1100 0 1000 chainParams)).
Proof.
  cbv zeta.
  destruct (downloadPercent_divides_by_the_estimate 11 1100 0 1000
              (Stats.mk_params 100 16000 1000 150)) as (_ & D & E & _).
  assert (N : Stats.netheight 11 1100 0 1000 100 16000 1000 150 = 0)
    by (vm_compute; reflexivity).
  assert (Z0 : Stats.EstimateNetHeight 11 1100 0 1000
                 (Stats.mk_params 100 16000 1000 150) = 0).
  { apply E. cbn [Stats.TotalBlocksEstimate Stats.nTimeLastCheckpoint
                    Stats.GenesisTime Stats.nPowTargetSpacing].
    rewrite N. lia. }
  split; [exact N |]. split; [exact Z0 |].
  rewrite D, Z0. apply in_or_app. right. left. reflexivity.
Defined.


(** ** The message box on screen *)

Lemma to_int_add_l (a b : Z) : to_int (to_int a + b) = to_int (a + b).
Proof.
  unfold to_int. apply signed_congr; [lia |].
  rewrite <- Z.add_mod_idemp_l, signed_mod, Z.add_mod_idemp_l by lia.
  reflexivity.
Qed.

Lemma first_index_none (s : string) :
  MessageLines.first_index "010"%char s = None ->
  MessageLines.newlines s = 0%nat.
Proof.
  induction s as [| a s IH]; [reflexivity |]. simpl.
  destruct (Ascii.eqb a "010"%char); [discriminate |].
  destruct (MessageLines.first_index "010"%char s); [discriminate |].
  intros _. auto.
Qed.

Lemma first_index_some (s : string) (i : nat) :
  MessageLines.first_index "010"%char s = Some i ->
  MessageLines.newlines s
  = S (MessageLines.newlines (MessageLines.drop_chars (i + 1) s)).
Proof.
  revert i. induction s as [| a s IH]; intros i; [discriminate |]. simpl.
  destruct (Ascii.eqb a "010"%char).
  - intros [= <-]. reflexivity.
  - destruct (MessageLines.first_index "010"%char s) as [k |]; [| discriminate].
    intros [= <-]. simpl. apply IH. reflexivity.
Qed.

Lemma find_drop (s : string) (pos : nat) :
  MessageLines.find "010"%char s pos
  = option_map (fun i => (pos + i)%nat)
      (MessageLines.first_index "010"%char (MessageLines.drop_chars pos s)).
Proof.
  revert s. induction pos as [| pos IH]; intros s.
  - destruct s as [| a s]; [reflexivity |]. simpl.
    destruct (Ascii.eqb a _); [reflexivity |].
    destruct (MessageLines.first_index _ s); reflexivity.
  - destruct s as [| a s]; [reflexivity |].
    cbn [MessageLines.find MessageLines.drop_chars]. rewrite IH.
    destruct (MessageLines.first_index _ _); reflexivity.
Qed.

Lemma drop_chars_add (s : string) (j k : nat) :
  MessageLines.drop_chars (j + k) s
  = MessageLines.drop_chars k (MessageLines.drop_chars j s).
Proof.
  revert s. induction j as [| j IH]; intros s; [reflexivity |].
  destruct s as [| a s]; simpl; [destruct k; reflexivity | apply IH].
Qed.

Lemma drop_chars_all (s : string) (j : nat) :
  (String.length s <= j)%nat -> MessageLines.drop_chars j s = EmptyString.
Proof.
  revert j. induction s as [| a s IH]; intros j H; [destruct j; reflexivity |].
  destruct j as [| j]; simpl in *; [lia | apply IH; lia].
Qed.

Lemma newline_loop_counts (msg : string) (j : nat) (lines : Z) :
  is_int lines ->
  MessageLines.newline_loop msg j lines
  = to_int (lines
            + Z.of_nat (MessageLines.newlines (MessageLines.drop_chars j msg))).
Proof.
  funelim (MessageLines.newline_loop msg j lines); intros I.
  - pose proof (proj1 (Nat.ltb_ge _ _) e) as G. rewrite drop_chars_all by exact G.
    simpl. rewrite Z.add_0_r. symmetry. apply to_int_id, I.
  - match goal with
    | IH : is_int _ -> MessageLines.newline_loop _ _ _ = _ |- _ =>
        rewrite IH by apply to_int_is_int
    end.
    rewrite to_int_add_l. f_equal.
    pose proof Hi as F. rewrite find_drop in F.
    destruct (MessageLines.first_index "010"%char
                (MessageLines.drop_chars j msg)) as [k |] eqn:E;
      [| discriminate].
    injection F as F. rewrite <- F. rewrite (first_index_some _ _ E).
    rewrite <- drop_chars_add, <- Nat.add_assoc. lia.
  - match goal with
    | IH : is_int _ -> MessageLines.newline_loop _ _ _ = _ |- _ =>
        rewrite IH by exact I
    end.
    rewrite (drop_chars_all msg (String.length msg + 1)) by lia. f_equal.
    pose proof e as F. rewrite find_drop in F.
    destruct (MessageLines.first_index "010"%char
                (MessageLines.drop_chars j msg)) as [k |] eqn:E;
      [discriminate |].
    rewrite (first_index_none _ E). reflexivity.
Qed.

Lemma to_int_to_uint64 (z : Z) : to_int (to_uint64 z) = to_int z.
Proof.
  unfold to_int, to_uint64, CInt.unsigned. apply signed_congr; [lia |].
  apply Z.mod_mod_divide. exists (2 ^ 32). reflexivity.
Qed.

(** The loop over the formatted message ends and adds to [lines] one for
    each newline character of the message, no more and no less: the text
    after the last newline adds nothing. *)
Theorem newline_loop_counts_newlines (msg : string) (lines : Z) :
  is_int lines ->
  MessageLines.newline_loop msg 0 lines
  = to_int (lines + Z.of_nat (MessageLines.newlines msg)) /\
  (lines + Z.of_nat (MessageLines.newlines msg) <= INT_MAX ->
   MessageLines.newline_loop msg 0 lines
   = lines + Z.of_nat (MessageLines.newlines msg)).
Proof.
  intros I. pose proof (newline_loop_counts msg 0 lines I) as E.
  cbn [MessageLines.drop_chars] in E.
  split; [exact E |]. intros B. rewrite E.
  apply to_int_id. unfold is_int, INT_MAX in *. lia.
Qed.

Lemma newline_loop_counts_newlines_witness :
  MessageLines.newline_loop
    (String "a" (String "010" (String "010" (String "b" (String "010" EmptyString)))))
    0 7 = 10.
Proof.
  destruct (newline_loop_counts_newlines
              (String "a" (String "010" (String "010" (String "b"
                 (String "010" EmptyString))))) 7) as [_ E]; [in_range |].
  apply E. vm_compute. discriminate.
Defined.

Lemma printMessageBox_fold
    (FormatParagraph : string -> Z -> Z -> string) (cols : Z)
    (u : list string) :
  forall lines, is_int lines ->
  fold_left
    (fun lines it => MessageLines.newline_loop (FormatParagraph it cols 2) 0 lines)
    u lines
  = to_int (lines
            + Z.of_nat (MessageLines.newlines_shown FormatParagraph cols u)).
Proof.
  induction u as [| it u IH]; intros lines I.
  - simpl. rewrite Z.add_0_r. symmetry. apply to_int_id, I.
  - cbn [fold_left MessageLines.newlines_shown foldr].
    pose proof (newline_loop_counts (FormatParagraph it cols 2) 0 lines I) as E.
    cbn [MessageLines.drop_chars] in E.
    rewrite E, IH by apply to_int_is_int. rewrite to_int_add_l. f_equal.
    fold (MessageLines.newlines_shown FormatParagraph cols u). lia.
Qed.

(** [printMessageBox] returns 0 for an empty box and otherwise 2 (the
    heading and the closing blank line) plus one line per message plus one
    line per newline character of the formatted messages; a box that is not
    empty takes at least 3 lines. *)
Theorem printMessageBox_line_count
    (FormatParagraph : string -> Z -> Z -> string) (cols : Z)
    (u : list string) :
  let shown :=
    2 + Z.of_nat (length u)
    + Z.of_nat (MessageLines.newlines_shown FormatParagraph cols u) in
  (u = [] -> MessageLines.printMessageBox FormatParagraph cols u = 0) /\
  (u <> [] ->
   MessageLines.printMessageBox FormatParagraph cols u = to_int shown) /\
  (u <> [] -> shown <= INT_MAX ->
   MessageLines.printMessageBox FormatParagraph cols u = shown /\
   3 <= MessageLines.printMessageBox FormatParagraph cols u).
Proof.
  cbv zeta.
  assert (N : u <> [] ->
              MessageLines.printMessageBox FormatParagraph cols u
              = to_int (2 + Z.of_nat (length u)
                        + Z.of_nat (MessageLines.newlines_shown FormatParagraph
                                      cols u))).
  { intros H. unfold MessageLines.printMessageBox.
    destruct u as [| it u]; [congruence |]. cbn [length Nat.eqb].
    rewrite printMessageBox_fold by (rewrite to_int_to_uint64; apply to_int_is_int).
    rewrite to_int_to_uint64, to_int_add_l. reflexivity. }
  split; [intros ->; reflexivity |]. split; [exact N |].
  intros H B. rewrite (N H).
  assert (0 < Z.of_nat (length u)) by (destruct u; [congruence | simpl; lia]).
  rewrite to_int_id by in_range. unfold INT_MAX in B. lia.
Qed.

Lemma printMessageBox_line_count_witness :
  MessageLines.printMessageBox
    (fun it _ _ => it +:+ String "010" EmptyString) 80 ["Error: a"; "Warning: b"]
  = 2 + 2 + 2.
Proof.
  destruct (printMessageBox_line_count
              (fun it _ _ => it +:+ String "010" EmptyString) 80
              ["Error: a"; "Warning: b"]) as (_ & _ & E).
  destruct E as [E _]; [discriminate | vm_compute; discriminate |].
  rewrite E. reflexivity.
Defined.

(** ** The init message *)





(** ** The refresh loop *)

Lemma triggers_keep_waiting (nRefresh now : Z) (evs : list Refresh.event) :
  forall s : Refresh.t,
  Refresh.position s = Refresh.Waiting ->
  Screen.nNextRefresh (Refresh.screen s) <= now ->
  forallb (Refresh.trigger_until now) evs = true ->
  Refresh.position (Refresh.run nRefresh s evs) = Refresh.Waiting /\
  Screen.nNextRefresh (Refresh.screen (Refresh.run nRefresh s evs)) <= now.
Proof.
  induction evs as [| ev evs IH]; intros s W D Q; [auto |].
  simpl in Q. apply andb_prop in Q as [Q1 Q2].
  destruct ev as [t | t | t |]; try discriminate.
  apply (IH (Refresh.step nRefresh s (Refresh.Trigger t))); [exact W | | exact Q2].
  simpl. apply Z.leb_le, Q1.
Qed.

(** A waiting screen thread leaves the wait at its first check after a
    [TriggerRefresh], however far away its deadline was and whatever the
    refresh interval is; further calls of [TriggerRefresh] in between do not
    change that. Without one, a check before the deadline goes on waiting. *)
Theorem TriggerRefresh_ends_the_wait_at_the_next_check
    (nRefresh t now : Z) (s : Refresh.t) (evs : list Refresh.event) :
  Refresh.position s = Refresh.Waiting ->
  Refresh.interruption_requested s = false ->
  t <= now ->
  forallb (Refresh.trigger_until now) evs = true ->
  Refresh.position
    (Refresh.step nRefresh
       (Refresh.run nRefresh (Refresh.step nRefresh s (Refresh.Trigger t)) evs)
       (Refresh.Check now)) = Refresh.Rendering /\
  (now < Screen.nNextRefresh (Refresh.screen s) ->
   Refresh.step nRefresh s (Refresh.Check now) = s).
Proof.
  intros W I T Q. split.
  - destruct (triggers_keep_waiting nRefresh now evs
                (Refresh.step nRefresh s (Refresh.Trigger t))) as [W' D'];
      [exact W | exact T | exact Q |].
    set (w := Refresh.run nRefresh
                (Refresh.step nRefresh s (Refresh.Trigger t)) evs) in *.
    cbn [Refresh.step]. rewrite W'. unfold Screen.refresh_pending.
    destruct (Z.ltb_spec now (Screen.nNextRefresh (Refresh.screen w)));
      [lia | reflexivity].
  - intros P. cbn [Refresh.step]. rewrite W. unfold Screen.refresh_pending.
    destruct (Z.ltb_spec now (Screen.nNextRefresh (Refresh.screen s))); [| lia].
    rewrite I. reflexivity.
Qed.

Lemma TriggerRefresh_ends_the_wait_at_the_next_check_witness :
  let s := Refresh.step 600 Refresh.init (Refresh.EndPass 1000) in
  Refresh.position (Refresh.step 600 s (Refresh.Check 1001)) = Refresh.Waiting /\
  Refresh.position
    (Refresh.step 600 (Refresh.step 600 s (Refresh.Trigger 1001))
       (Refresh.Check 1001)) = Refresh.Rendering.
Proof.
  cbv zeta. split; [reflexivity |].
  apply (TriggerRefresh_ends_the_wait_at_the_next_check 600 1001 1001
           (Refresh.step 600 Refresh.init (Refresh.EndPass 1000)) []);
    [reflexivity | reflexivity | lia | reflexivity].
Defined.



(** Case analysis on a state of the loop and an event. *)
Ltac refresh_cases s ev :=
  destruct s as [[] ? []]; destruct ev; simpl;
  repeat match goal with
         | |- context [if ?b then _ else _] => destruct b
         end;
  simpl; intros; auto; try discriminate.

Lemma step_interruption (nRefresh : Z) (s : Refresh.t) (ev : Refresh.event) :
  (Refresh.interruption_requested (Refresh.step nRefresh s ev) = true ->
   Refresh.interruption_requested s = true \/ Refresh.is_interrupt ev = true) /\
  (Refresh.position (Refresh.step nRefresh s ev) = Refresh.Cancelled ->
   Refresh.position s = Refresh.Cancelled \/
   Refresh.interruption_requested s = true) /\
  (Refresh.position s = Refresh.Cancelled ->
   Refresh.position (Refresh.step nRefresh s ev) = Refresh.Cancelled) /\
  (Refresh.interruption_requested s = true ->
   Refresh.interruption_requested (Refresh.step nRefresh s ev) = true).
Proof.
  split; [| split; [| split]]; refresh_cases s ev.
Qed.

Lemma run_keeps_interruption (nRefresh : Z) (trace : list Refresh.event) :
  forall s : Refresh.t,
  Refresh.interruption_requested s = true ->
  Refresh.interruption_requested (Refresh.run nRefresh s trace) = true.
Proof.
  induction trace as [| ev trace IH]; intros s K; [exact K |].
  apply IH, step_interruption, K.
Qed.

Lemma run_interruption (nRefresh : Z) (trace : list Refresh.event) :
  forall s : Refresh.t,
  (Refresh.interruption_requested (Refresh.run nRefresh s trace) = true ->
   Refresh.interruption_requested s = true \/
   existsb Refresh.is_interrupt trace = true) /\
  (Refresh.position (Refresh.run nRefresh s trace) = Refresh.Cancelled ->
   Refresh.position s = Refresh.Cancelled \/
   Refresh.interruption_requested (Refresh.run nRefresh s trace) = true) /\
  (Refresh.position s = Refresh.Cancelled ->
   Refresh.position (Refresh.run nRefresh s trace) = Refresh.Cancelled).
Proof.
  induction trace as [| ev trace IH]; intros s; [simpl; auto |].
  change (Refresh.run nRefresh s (ev :: trace))
    with (Refresh.run nRefresh (Refresh.step nRefresh s ev) trace).
  destruct (IH (Refresh.step nRefresh s ev)) as (A & B & C).
  destruct (step_interruption nRefresh s ev) as (S1 & S2 & S3 & S4).
  cbn [existsb]. split; [| split].
  - intros H. destruct (A H) as [K | K]; [| rewrite K, orb_true_r; auto].
    destruct (S1 K) as [K' | K']; [auto | rewrite K'; auto].
  - intros H. destruct (B H) as [K | K]; [| auto].
    destruct (S2 K) as [K' | K']; [auto |].
    right. apply run_keeps_interruption, S4, K'.
  - intros H. apply C, S3, H.
Qed.

(** The refresh loop stops in one way only: the screen thread is found
    [Cancelled] only if its interruption was requested at some point, and
    once cancelled it stays so. *)
Theorem refresh_loop_ends_only_by_interruption
    (nRefresh : Z) (trace more : list Refresh.event) :
  let s := Refresh.run nRefresh Refresh.init trace in
  (Refresh.position s = Refresh.Cancelled ->
   existsb Refresh.is_interrupt trace = true /\
   Refresh.position (Refresh.run nRefresh s more) = Refresh.Cancelled) /\
  (existsb Refresh.is_interrupt trace = false ->
   Refresh.position s <> Refresh.Cancelled /\
   Refresh.interruption_requested s = false).
Proof.
  cbv zeta. destruct (run_interruption nRefresh trace Refresh.init) as (A & B & _).
  assert (F : Refresh.interruption_requested
                (Refresh.run nRefresh Refresh.init trace) = true ->
              existsb Refresh.is_interrupt trace = true).
  { intros H. destruct (A H) as [K | K]; [discriminate | exact K]. }
  split.
  - intros H. split.
    + destruct (B H) as [K | K]; [discriminate | apply F, K].
    + apply (run_interruption nRefresh more), H.
  - intros N. split.
    + intros H. destruct (B H) as [K | K]; [discriminate |].
      rewrite (F K) in N. discriminate.
    + destruct (Refresh.interruption_requested _) eqn:K; [| reflexivity].
      rewrite (F eq_refl) in N. discriminate.
Qed.

(** C6. A [TriggerRefresh] made while the screen thread is inside a pass
    does not start the next pass within the wait of the caller: the pass
    ends with [*nNextRefresh = GetTime() + nRefresh], which overwrites the
    deadline the call stored. With a refresh interval of 600 seconds, a call
    at 1000 during the pass that ends at 1001 leaves the deadline at 1601,
    and the checks at 1001 and at 1600 go on waiting; the same call made
    after the pass has ended starts the next pass at the first check. *)
Theorem C6_trigger_during_a_pass_does_not_refresh :
  let during :=
    Refresh.run 600 Refresh.init
      [Refresh.Trigger 1000; Refresh.EndPass 1001; Refresh.Check 1001;
       Refresh.Check 1600] in
  let after :=
    Refresh.run 600 Refresh.init
      [Refresh.EndPass 1001; Refresh.Trigger 1001; Refresh.Check 1001] in
  Refresh.position during = Refresh.Waiting /\
  Screen.nNextRefresh (Refresh.screen during) = 1601 /\
  Refresh.position
    (Refresh.run 600 Refresh.init [Refresh.Trigger 1000; Refresh.EndPass 1001])
  = Refresh.Waiting /\
  Refresh.position after = Refresh.Rendering.
Proof. cbv zeta. repeat split. Qed.

(** ** More on the reconciliation *)

Lemma update_orphans_filtered (c : Ledger.chain) (u : list Z) :
  forall acc,
  Ledger.update_orphans c (List.filter (Ledger.on_best_chain c) u) acc
  = Ledger.update_orphans c u acc.
Proof.
  induction u as [| hash rest IH]; intros acc; [reflexivity |].
  cbn [List.filter]. destruct (Ledger.on_best_chain c hash) eqn:B.
  - unfold Ledger.on_best_chain in B. simpl.
    destruct (Ledger.mapBlockIndex c !! hash) as [pindex |]; [| discriminate].
    rewrite B, IH. reflexivity.
  - rewrite (update_orphans_drop c hash rest acc B). apply IH.
Qed.

Lemma filter_sublist (f : Z -> bool) (u : list Z) : sublist (List.filter f u) u.
Proof.
  induction u as [| x u IH]; [constructor |]. simpl.
  destruct (f x); [apply sublist_skip | apply sublist_cons]; exact IH.
Qed.

(** A second pass against the same chain state changes nothing: it keeps
    the list of the first pass and reports the same figures. What a pass
    keeps is the old list with entries left out, in the old order. *)
Theorem reconcile_is_idempotent (c : Ledger.chain) (s : Ledger.t) :
  let once := Ledger.reconcile c s in
  let twice := Ledger.reconcile c (fst once) in
  fst twice = fst once /\ snd twice = snd once /\
  sublist (Ledger.trackedBlocks (fst once)) (Ledger.trackedBlocks s).
Proof.
  cbv zeta.
  assert (E : Ledger.update_orphans c
                (Ledger.trackedBlocks (fst (Ledger.reconcile c s)))
                (Ledger.mk_amounts 0 0)
              = Ledger.update_orphans c (Ledger.trackedBlocks s)
                  (Ledger.mk_amounts 0 0)).
  { rewrite reconcile_tracked. apply update_orphans_filtered. }
  split; [| split].
  - unfold Ledger.reconcile at 1. rewrite E. reflexivity.
  - unfold Ledger.reconcile at 1. rewrite E. reflexivity.
  - rewrite reconcile_tracked. apply filter_sublist.
Qed.

Lemma sum_subsidies_cons (c : Ledger.chain) (x : Z) (l : list Z) :
  Ledger.sum_subsidies c (x :: l)
  = Ledger.subsidy_of c x + Ledger.sum_subsidies c l.
Proof. reflexivity. Qed.

Lemma sum_subsidies_split (c : Ledger.chain) (f : Z -> bool) (l : list Z) :
  Ledger.sum_subsidies c (List.filter f l)
  + Ledger.sum_subsidies c (List.filter (fun hash => negb (f hash)) l)
  = Ledger.sum_subsidies c l.
Proof.
  induction l as [| x l IH]; [reflexivity |]. cbn [List.filter].
  destruct (f x); cbn [negb]; rewrite !sum_subsidies_cons; lia.
Qed.

Lemma sum_subsidies_nonneg (c : Ledger.chain) (l : list Z) :
  (forall height, 0 <= Ledger.GetBlockSubsidy c height) ->
  0 <= Ledger.sum_subsidies c l.
Proof.
  intros P. induction l as [| x l IH]; [simpl; lia |].
  rewrite sum_subsidies_cons.
  pose proof (P (Ledger.height_of c x)). unfold Ledger.subsidy_of. lia.
Qed.

(** Every kept block is counted once, in one of the two totals: immature and
    mature together are the subsidies of the kept blocks (as [int64_t]
    sums, and exactly so when subsidies are not negative and their sum fits
    an [int64_t]). *)
Theorem totals_partition_the_subsidies (c : Ledger.chain) (s : Ledger.t) :
  Ledger.well_formed c ->
  let r := snd (Ledger.reconcile c s) in
  let kept := Ledger.trackedBlocks (fst (Ledger.reconcile c s)) in
  to_int64 (Ledger.immature_total r + Ledger.mature_total r)
  = to_int64 (Ledger.sum_subsidies c kept) /\
  ((forall height, 0 <= Ledger.GetBlockSubsidy c height) ->
   Ledger.sum_subsidies c kept < 2 ^ 63 ->
   Ledger.immature_total r + Ledger.mature_total r
   = Ledger.sum_subsidies c kept /\
   0 <= Ledger.immature_total r /\ 0 <= Ledger.mature_total r).
Proof.
  intros W. cbv zeta. rewrite reconcile_tracked.
  destruct (update_orphans_amounts c (Ledger.trackedBlocks s) W
              (Ledger.mk_amounts 0 0)) as [Ei Em]; [in_range .. |].
  cbn [Ledger.immature Ledger.mature] in Ei, Em. rewrite Z.add_0_l in Ei, Em.
  change (Ledger.immature_total (snd (Ledger.reconcile c s)))
    with (Ledger.immature
            (snd (Ledger.update_orphans c (Ledger.trackedBlocks s)
                    (Ledger.mk_amounts 0 0)))).
  change (Ledger.mature_total (snd (Ledger.reconcile c s)))
    with (Ledger.mature
            (snd (Ledger.update_orphans c (Ledger.trackedBlocks s)
                    (Ledger.mk_amounts 0 0)))).
  rewrite Ei, Em.
  set (kept := List.filter (Ledger.on_best_chain c) (Ledger.trackedBlocks s)).
  pose proof (sum_subsidies_split c (Ledger.below_maturity c) kept) as P.
  split.
  - rewrite to_int64_add_l, to_int64_add_r, P. reflexivity.
  - intros N B.
    pose proof (sum_subsidies_nonneg c
                  (List.filter (Ledger.below_maturity c) kept) N).
    pose proof (sum_subsidies_nonneg c
                  (List.filter (fun hash => negb (Ledger.below_maturity c hash))
                     kept) N).
    rewrite !to_int64_id by (unfold is_int64; lia). lia.
Qed.

Lemma totals_partition_the_subsidies_witness :
  let r := snd (Ledger.reconcile Ledger.example_chain (Ledger.mk 3%N [1; 2; 3])) in
  Ledger.immature_total r + Ledger.mature_total r = 2500000000.
Proof.
  cbv zeta.
  destruct (totals_partition_the_subsidies Ledger.example_chain
              (Ledger.mk 3%N [1; 2; 3]) example_chain_well_formed) as [_ E].
  destruct E as [E _]; [simpl; lia | vm_compute; reflexivity |].
  rewrite E. reflexivity.
Defined.

(** Recording a block and then reconciling: the block joins the end of the
    kept list when it is on the active chain, and otherwise it is erased at
    once and the orphan count is one higher than without it. *)
Theorem recording_then_reconciling
    (c : Ledger.chain) (s : Ledger.t) (hash : Z) :
  Ledger.counter_covers_list s ->
  AtomicCounter.get (Ledger.minedBlocks s) < INT_MAX ->
  let before := Ledger.reconcile c s in
  let after := Ledger.reconcile c (Ledger.TrackMinedBlock hash s) in
  Ledger.trackedBlocks (fst after)
  = Ledger.trackedBlocks (fst before)
    ++ (if Ledger.on_best_chain c hash then [hash] else []) /\
  Ledger.mined (snd after) = Ledger.mined (snd before) + 1 /\
  Ledger.orphaned (snd after)
  = Ledger.orphaned (snd before)
    + (if Ledger.on_best_chain c hash then 0 else 1).
Proof.
  unfold Ledger.counter_covers_list, INT_MAX. intros K G. cbv zeta.
  assert (T : Ledger.trackedBlocks
                (fst (Ledger.reconcile c (Ledger.TrackMinedBlock hash s)))
              = Ledger.trackedBlocks (fst (Ledger.reconcile c s))
                ++ (if Ledger.on_best_chain c hash then [hash] else [])).
  { rewrite !reconcile_tracked. unfold Ledger.TrackMinedBlock.
    cbn [Ledger.trackedBlocks]. rewrite List.filter_app. reflexivity. }
  pose proof (filter_length_le (Ledger.on_best_chain c) (Ledger.trackedBlocks s)) as F.
  assert (0 <= AtomicCounter.get (Ledger.minedBlocks s)) by apply N2Z.is_nonneg.
  split; [exact T |]. split.
  - unfold Ledger.reconcile. cbn [snd Ledger.mined Ledger.minedBlocks Ledger.TrackMinedBlock].
    change (AtomicCounter.get (AtomicCounter.increment (Ledger.minedBlocks s)))
      with (AtomicCounter.get
              (Ledger.minedBlocks (Ledger.TrackMinedBlock hash s))).
    rewrite TrackMinedBlock_counter.
    rewrite !to_int_id by in_range. reflexivity.
  - rewrite !reconcile_orphaned, T, TrackMinedBlock_counter, reconcile_tracked,
      length_app.
    rewrite !to_int_id by
      (destruct (Ledger.on_best_chain c hash); simpl length; in_range).
    destruct (Ledger.on_best_chain c hash); simpl length; lia.
Qed.

Lemma recording_then_reconciling_witness :
  Ledger.trackedBlocks
    (fst (Ledger.reconcile Ledger.example_chain
            (Ledger.TrackMinedBlock 9 (Ledger.mk 2%N [1; 2])))) = [1; 2] /\
  Ledger.orphaned
    (snd (Ledger.reconcile Ledger.example_chain
            (Ledger.TrackMinedBlock 9 (Ledger.mk 2%N [1; 2])))) = 0 + 1.
Proof.
  destruct (recording_then_reconciling Ledger.example_chain
              (Ledger.mk 2%N [1; 2]) 9) as (T & _ & O);
    [unfold Ledger.counter_covers_list; simpl; lia | vm_compute; reflexivity |].
  split; [exact T | exact O].
Defined.

(** ** The mining status *)

(** The two displays of the miner agree: with mining enabled, [printStats]
    adds the line of the local solution rate exactly when
    [printMiningStatus] reports mining threads, and the number it reports
    is the thread count of the timer; a paused miner gets neither. *)
Theorem mining_displays_agree
    (miningTimer : AtomicTimer.t) (fvNodesEmpty isInitialBlockDownload : bool) :
  let shown :=
    fst (MiningStatus.printMiningStatus true true miningTimer fvNodesEmpty
           isInitialBlockDownload) in
  snd (MiningStatus.printMiningStatus true true miningTimer fvNodesEmpty
         isInitialBlockDownload) = 2 /\
  (Stats.printStats_lines true miningTimer = 5 <->
   shown = Some (MiningStatus.MiningWithThreads
                   (AtomicTimer.threadCount miningTimer))) /\
  (Stats.printStats_lines true miningTimer = 4 <->
   AtomicTimer.running miningTimer = false) /\
  (AtomicTimer.running miningTimer = false ->
   shown = Some (if fvNodesEmpty then MiningStatus.PausedWaitingForConnections
                 else if isInitialBlockDownload
                      then MiningStatus.PausedDownloadingBlocks
                      else MiningStatus.PausedJoinSplit)).
Proof.
  cbv zeta. unfold MiningStatus.printMiningStatus, Stats.printStats_lines,
    AtomicTimer.running, AtomicTimer.threadCount. cbn [fst snd andb].
  destruct (0 <? AtomicTimer.threads miningTimer).
  - split; [reflexivity |]. split; [split; reflexivity |].
    split; [split; discriminate | discriminate].
  - split; [reflexivity |]. split.
    + split; [discriminate |].
      destruct fvNodesEmpty, isInitialBlockDownload; discriminate.
    + split; [split; reflexivity | reflexivity].
Qed.
